(** * Tip distribution calculator: a model of [src/TipDistribution.tsx]

    The React component keeps the pool as the text of a number field, a
    list of employees, a grid of daily hours keyed by employee id and date,
    the Monday of the selected week and the restaurant's share.  Two paths
    compute over that state: [calculateTips], which validates and builds
    the request for the backend, and the live distribution table, which
    computes the rows shown on screen.

    Numbers.  A JavaScript number is modelled by [JS.number]: [NaN], the
    two infinities, or a finite value carried as an exact rational.  Finite
    arithmetic is exact (no binary rounding, no overflow) and zero is
    unsigned; everything the source distinguishes about non-finite values
    ([isFinite], [isNaN], [x || 0], comparisons with [NaN], division by
    zero) is kept.

    Dates.  The ISO date strings used as keys of the grid are modelled by
    the day number they denote, so [getWeekDates] returns seven consecutive
    day numbers.

    Objects.  The grid is a finite map; [Object.values] is folded in the
    map's order of keys rather than in insertion order, which exact
    addition does not distinguish. *)

From Stdlib Require Import ZArith QArith Qround Qabs Lqa Lia List String Ascii Bool.
From stdpp Require Import gmap strings.

Local Open Scope Q_scope.

(** ** JavaScript numbers and the built-ins the component calls *)

Module JS.

Inductive number : Type :=
  | NaN
  | PInf
  | NInf
  | Fin (q : Q).

Definition Qltb (a b : Q) : bool := negb (Qle_bool b a).
Definition is_zero (q : Q) : bool := Qeq_bool q 0.

Definition inf (negative : bool) : number := if negative then NInf else PInf.

Definition neg (a : number) : number :=
  match a with
  | NaN => NaN
  | PInf => NInf
  | NInf => PInf
  | Fin x => Fin (- x)
  end.

(** [a + b] *)
Definition add (a b : number) : number :=
  match a, b with
  | NaN, _ => NaN
  | _, NaN => NaN
  | Fin x, Fin y => Fin (x + y)
  | PInf, NInf => NaN
  | NInf, PInf => NaN
  | PInf, _ => PInf
  | NInf, _ => NInf
  | Fin _, i => i
  end.

(** [a - b] *)
Definition sub (a b : number) : number := add a (neg b).

(** [a * b]: zero times an infinity is [NaN]. *)
Definition mul (a b : number) : number :=
  match a, b with
  | NaN, _ => NaN
  | _, NaN => NaN
  | Fin x, Fin y => Fin (x * y)
  | Fin x, i => if is_zero x then NaN else if Qltb x 0 then neg i else i
  | i, Fin y => if is_zero y then NaN else if Qltb y 0 then neg i else i
  | PInf, PInf => PInf
  | NInf, NInf => PInf
  | PInf, NInf => NInf
  | NInf, PInf => NInf
  end.

(** [a / b]: a finite value over zero is an infinity, [0 / 0] is [NaN]. *)
Definition div (a b : number) : number :=
  match a, b with
  | NaN, _ => NaN
  | _, NaN => NaN
  | Fin x, Fin y =>
      if is_zero y then (if is_zero x then NaN else inf (Qltb x 0))
      else Fin (x / y)
  | Fin _, _ => Fin 0
  | i, Fin y => if Qltb y 0 then neg i else i
  | _, _ => NaN
  end.

(** [a < b]; every comparison with [NaN] is false. *)
Definition lt (a b : number) : bool :=
  match a, b with
  | NaN, _ => false
  | _, NaN => false
  | Fin x, Fin y => Qltb x y
  | NInf, NInf => false
  | NInf, _ => true
  | Fin _, PInf => true
  | _, _ => false
  end.

(** [a <= b] *)
Definition le (a b : number) : bool :=
  match a, b with
  | NaN, _ => false
  | _, NaN => false
  | Fin x, Fin y => Qle_bool x y
  | NInf, _ => true
  | _, PInf => true
  | _, _ => false
  end.

(** [a > b] *)
Definition gt (a b : number) : bool := lt b a.

(** [a === b] on numbers *)
Definition strict_eq (a b : number) : bool :=
  match a, b with
  | Fin x, Fin y => Qeq_bool x y
  | PInf, PInf => true
  | NInf, NInf => true
  | _, _ => false
  end.

(** Truthiness of a number: [NaN] and [0] are falsy. *)
Definition truthy (a : number) : bool :=
  match a with
  | NaN => false
  | Fin x => negb (is_zero x)
  | _ => true
  end.

(** [a || b] on numbers *)
Definition or (a b : number) : number := if truthy a then a else b.

(** [(v || 0)] where [v] is a property read that may be [undefined]. *)
Definition or0 (v : option number) : number :=
  match v with
  | Some a => or a (Fin 0)
  | None => Fin 0
  end.

Definition isFinite (a : number) : bool :=
  match a with Fin _ => true | _ => false end.

Definition isNaN (a : number) : bool :=
  match a with NaN => true | _ => false end.

(** [Math.round] on a finite value: the nearest integer, a tie going to
    the larger one, that is [floor (x + 1/2)]. *)
Definition round (x : Q) : Z := Qfloor (x + (1 # 2)).

Definition Math_round (a : number) : number :=
  match a with
  | Fin x => Fin (inject_Z (round x))
  | _ => a
  end.

Definition Math_abs (a : number) : number :=
  match a with
  | NaN => NaN
  | Fin x => Fin (Qabs x)
  | _ => PInf
  end.

Definition Math_max (a b : number) : number :=
  match a, b with
  | NaN, _ => NaN
  | _, NaN => NaN
  | _, _ => if lt a b then b else a
  end.

(** *** [parseFloat] on ASCII text *)

Definition is_ws (c : ascii) : bool :=
  let n := N_of_ascii c in
  ((9 <=? n) && (n <=? 13))%N || (n =? 32)%N.

Fixpoint trimStart (s : string) : string :=
  match s with
  | String c s' => if is_ws c then trimStart s' else s
  | EmptyString => s
  end.

Definition digit_of (c : ascii) : option Z :=
  let n := Z.of_N (N_of_ascii c) in
  if ((48 <=? n) && (n <=? 57))%Z then Some (n - 48)%Z else None.

(** Reads the longest run of decimal digits: its value, its length and
    the remaining text. *)
Fixpoint digits (s : string) (acc : Z) (cnt : Z) : Z * Z * string :=
  match s with
  | String c s' =>
      match digit_of c with
      | Some d => digits s' (10 * acc + d)%Z (cnt + 1)%Z
      | None => (acc, cnt, s)
      end
  | EmptyString => (acc, cnt, s)
  end.

Definition read_sign (s : string) : bool * string :=
  match s with
  | String "-" r => (true, r)
  | String "+" r => (false, r)
  | _ => (false, s)
  end.

(** The exponent part, [0] when it is absent or malformed. *)
Definition exponent (s : string) : Z :=
  match s with
  | String c r =>
      if (c =? "e")%char || (c =? "E")%char then
        let '(negative, r') := read_sign r in
        let '(e, cnt, _) := digits r' 0%Z 0%Z in
        if (cnt =? 0)%Z then 0%Z else if negative then (- e)%Z else e
      else 0%Z
  | EmptyString => 0%Z
  end.

Definition parseFloat (s : string) : number :=
  let '(negative, s0) := read_sign (trimStart s) in
  if String.prefix "Infinity" s0 then inf negative
  else
    let '(ip, icnt, s1) := digits s0 0%Z 0%Z in
    let '(fp, fcnt, s2) :=
      match s1 with
      | String "." r => digits r 0%Z 0%Z
      | _ => (0%Z, 0%Z, s1)
      end in
    if (icnt + fcnt =? 0)%Z then NaN
    else
      let mant := inject_Z ip + inject_Z fp / 10 ^ fcnt in
      let v := mant * 10 ^ exponent s2 in
      Fin (if negative then - v else v).

(** *** Finite values *)

Definition toQ (a : number) : Q :=
  match a with Fin x => x | _ => 0 end.

(** Equality of numbers up to the equality of rationals. *)
Definition equiv (a b : number) : Prop :=
  match a, b with
  | NaN, NaN => True
  | PInf, PInf => True
  | NInf, NInf => True
  | Fin x, Fin y => x == y
  | _, _ => False
  end.

End JS.

Abbreviation number := JS.number.

Declare Scope js_scope.
Delimit Scope js_scope with js.
Infix "+" := JS.add : js_scope.
Infix "-" := JS.sub : js_scope.
Infix "*" := JS.mul : js_scope.
Infix "/" := JS.div : js_scope.
Infix "<?" := JS.lt : js_scope.
Infix "<=?" := JS.le : js_scope.
Infix ">?" := JS.gt : js_scope.
Infix "||" := JS.or : js_scope.


(** ** Strings *)

(** Truthiness of a string: only the empty string is falsy. *)
Definition str_truthy (s : string) : bool :=
  match s with
  | EmptyString => false
  | String _ _ => true
  end.

(** [s || dflt] where [s] is a string property that may be [undefined]. *)
Definition str_or (s : option string) (dflt : string) : string :=
  match s with
  | Some v => if str_truthy v then v else dflt
  | None => dflt
  end.

Definition lower (c : ascii) : ascii :=
  let k := N_of_ascii c in
  if ((65 <=? k) && (k <=? 90))%N then ascii_of_N (k + 32) else c.

Fixpoint toLowerCase (s : string) : string :=
  match s with
  | String c s' => String (lower c) (toLowerCase s')
  | EmptyString => EmptyString
  end.

(** ** Component state *)

Record Employee : Type := mkEmployee {
  id : string;
  name : string;
  hours : number;
  type : option string
}.

(** [hoursGrid[employeeId][date]] is the hours entered for that day. *)
Record State : Type := mkState {
  totalTips : string;
  employees : list Employee;
  hoursGrid : gmap string (gmap Z number);
  weekStart : Z;
  restaurantShare : number
}.

(** The setters of the state variables. *)
Definition setTotalTips (v : string) (st : State) : State :=
  mkState v (employees st) (hoursGrid st) (weekStart st) (restaurantShare st).
Definition setEmployees (v : list Employee) (st : State) : State :=
  mkState (totalTips st) v (hoursGrid st) (weekStart st) (restaurantShare st).
Definition setHoursGrid (v : gmap string (gmap Z number)) (st : State) : State :=
  mkState (totalTips st) (employees st) v (weekStart st) (restaurantShare st).
Definition setWeekStart (v : Z) (st : State) : State :=
  mkState (totalTips st) (employees st) (hoursGrid st) v (restaurantShare st).
Definition setRestaurantShare (v : number) (st : State) : State :=
  mkState (totalTips st) (employees st) (hoursGrid st) (weekStart st) v.

(** The seven days of the week that starts at [startIso]. *)
Definition getWeekDates (startIso : Z) : list Z :=
  List.map (fun i => (startIso + Z.of_nat i)%Z) (seq 0 7).

(** ** [calculateTips]: validation and the request sent to the backend *)

(** The objects [{ id, name, totalHours, type }] built by [calculateTips]. *)
Record WithTotal : Type := mkWithTotal {
  wt_id : string;
  wt_name : string;
  totalHours : number;
  wt_type : option string
}.

(** The body posted to [/calculate]. *)
Record RequestEmployee : Type := mkRequestEmployee {
  req_name : string;
  req_hours : number;
  role : option string
}.

Record Request : Type := mkRequest {
  total_tips : number;
  req_employees : list RequestEmployee
}.

(** What [calculateTips] does with the state: it sets the error message
    and stops, or it posts the request.  The answer of the backend is not
    part of the component. *)
Inductive Outcome : Type :=
  | InvalidInput (message : string)
  | Submit (body : Request).

(** [Object.values(perDay).reduce((s, v) => s + (v || 0), 0)]: every entry
    of the employee's row of the grid, whatever its date. *)
Definition sumValues (perDay : gmap Z number) : number :=
  map_fold (fun _ v s => (s + (v || JS.Fin 0))%js) (JS.Fin 0) perDay.

(** The component's [totalHours]: the total over the whole grid, shown
    under the label "Total hours for selected week". *)
Definition totalHours_all (st : State) : number :=
  map_fold (fun _ perDay sumEmp => (sumEmp + sumValues perDay)%js) (JS.Fin 0)
           (hoursGrid st).

(** "derive total hours per employee from hoursGrid" *)
Definition employeesWithTotals (st : State) : list WithTotal :=
  List.map (fun e =>
    let perDay := default ∅ (hoursGrid st !! id e) in
    let total := sumValues perDay in
    {| wt_id := id e; wt_name := name e; totalHours := total; wt_type := type e |})
    (employees st).

(** [e.name && e.totalHours > 0] *)
Definition is_valid (e : WithTotal) : bool :=
  str_truthy (wt_name e) && (totalHours e >? JS.Fin 0)%js.

Definition validEmployees (st : State) : list WithTotal :=
  List.filter is_valid (employeesWithTotals st).

Definition calculateTips (st : State) : Outcome :=
  if negb (str_truthy (totalTips st))
     || (JS.parseFloat (totalTips st) <=? JS.Fin 0)%js
  then InvalidInput "Please enter a valid total tips amount"
  else
    if (length (validEmployees st) =? 0)%nat
    then InvalidInput "Please add at least one employee with hours worked"
    else
      Submit {| total_tips := JS.parseFloat (totalTips st);
                req_employees :=
                  List.map (fun e => {| req_name := wt_name e;
                                        req_hours := totalHours e;
                                        role := wt_type e |})
                           (validEmployees st) |}.

(** ** The restaurant-share field *)

(** The [onChange] handler of the "Restaurant %" field. *)
Definition onRestaurantShareChange (value : string) (st : State) : State :=
  let v := JS.parseFloat value in
  if negb (JS.isNaN v)
  then setRestaurantShare (JS.Math_max (JS.Fin 0) v / JS.Fin 100)%js st
  else st.

(** ** The live distribution table *)

(** The objects [{ id, name, total, type }] of [employeeTotals]. *)
Record Totals : Type := mkTotals {
  tot_id : string;
  tot_name : string;
  total : number;
  tot_type : string
}.

(** [hoursGrid[id] && hoursGrid[id][d]] *)
Definition gridEntry (st : State) (i : string) (d : Z) : option number :=
  hoursGrid st !! i ≫= (fun perDay => perDay !! d).

(** The total of one employee over the seven days of the selected week. *)
Definition weekTotal (st : State) (i : string) : number :=
  fold_left (fun s d => (s + JS.or0 (gridEntry st i d))%js)
            (getWeekDates (weekStart st)) (JS.Fin 0).

(** "helper to compute per-employee totals for the current week" *)
Definition employeeTotals (st : State) : list Totals :=
  List.map (fun emp =>
    {| tot_id := id emp;
       tot_name := str_or (Some (name emp)) "Unnamed";
       total := weekTotal st (id emp);
       tot_type := str_or (type emp) "waiter" |})
    (employees st).

(** experienced waiter 1.0, waiter 0.8, kitchen 0.5, new 0.6, anything
    else 0.8. *)
Definition getMultiplier (t : string) : number :=
  let k := toLowerCase t in
  if (k =? "experienced waiter")%string then JS.Fin 1
  else if (k =? "waiter")%string then JS.Fin (8 # 10)
  else if (k =? "kitchen")%string then JS.Fin (5 # 10)
  else if (k =? "new")%string then JS.Fin (6 # 10)
  else JS.Fin (8 # 10).

(** [{ ...emp, mult, points }] *)
Record Pointed : Type := mkPointed {
  pt_emp : Totals;
  mult : number;
  points : number
}.

Definition totalsWithPoints (st : State) : list Pointed :=
  List.map (fun emp =>
    let mult := getMultiplier (tot_type emp) in
    let points := (total emp * mult)%js in
    {| pt_emp := emp; mult := mult; points := points |})
    (employeeTotals st).

Definition totalEmployeePoints (st : State) : number :=
  fold_left (fun s e => (s + points e)%js) (totalsWithPoints st) (JS.Fin 0).

(** [parseFloat(totalTips) || 0] *)
Definition totalTipsValue (st : State) : number :=
  (JS.parseFloat (totalTips st) || JS.Fin 0)%js.

Record Row : Type := mkRow {
  row_emp : Pointed;
  rawPropPoints : number;
  prop : number;
  weeklyRaw : number;
  weeklyRounded : number
}.

(** The body of [employeeRows]: the scaled proportion is
    [(points / totalEmployeePoints) * (1 - restaurantShare)]. *)
Definition employeeRow (st : State) (emp : Pointed) : Row :=
  let rawPropPoints :=
    if (totalEmployeePoints st >? JS.Fin 0)%js
    then (points emp / totalEmployeePoints st)%js
    else JS.Fin 0 in
  let prop := (rawPropPoints * (JS.Fin 1 - restaurantShare st))%js in
  let weeklyRaw := (prop * totalTipsValue st)%js in
  let weeklyRounded := (JS.Math_round (weeklyRaw / JS.Fin 5) * JS.Fin 5)%js in
  {| row_emp := emp; rawPropPoints := rawPropPoints; prop := prop;
     weeklyRaw := weeklyRaw; weeklyRounded := weeklyRounded |}.

Definition employeeRows (st : State) : list Row :=
  List.map (employeeRow st) (totalsWithPoints st).

Definition sumEmployeesRounded (st : State) : number :=
  fold_left (fun s r => (s + weeklyRounded r)%js) (employeeRows st) (JS.Fin 0).

(** "restaurantAmount may be negative if rounding caused
    over-distribution; show that to the user" *)
Definition restaurantAmount (st : State) : number :=
  (totalTipsValue st - sumEmployeesRounded st)%js.

Definition restaurantRow (st : State) : Row :=
  {| row_emp := {| pt_emp := {| tot_id := "restaurant"; tot_name := "Restaurant";
                                total := JS.Fin 0; tot_type := "restaurant" |};
                   mult := JS.Fin 0; points := JS.Fin 0 |};
     rawPropPoints := JS.Fin 0;
     prop := restaurantShare st;
     weeklyRaw := (restaurantShare st * totalTipsValue st)%js;
     weeklyRounded := restaurantAmount st |}.

Definition finalRows (st : State) : list Row :=
  employeeRows st ++ [restaurantRow st].

(** Proportion after rounding, as computed for each rendered row. *)
Definition propAfter (st : State) (r : Row) : number :=
  if (totalTipsValue st >? JS.Fin 0)%js
  then (weeklyRounded r / totalTipsValue st)%js
  else JS.Fin 0.

(** ** The fraction display helper *)

(** [gcd]: the [while (b)] loop, run on integers.  [a % b] is the
    remainder that takes the sign of [a]. *)
Fixpoint gcd_loop (fuel : nat) (a b : Z) : Z :=
  match fuel with
  | O => a
  | S fuel' => if (b =? 0)%Z then a else gcd_loop fuel' b (Z.rem a b)
  end.

Definition gcd (a b : Z) : Z :=
  let a := Z.abs a in
  let b := Z.abs b in
  gcd_loop (S (Z.to_nat b)) a b.

Record Best : Type := mkBest {
  best_n : Z;
  best_d : Z;
  best_err : Q
}.

(** Error of the fraction [n / d] as an approximation of [x]. *)
Definition frac_err (x : Q) (n d : Z) : Q :=
  Qabs (x - inject_Z n / inject_Z d).

(** One iteration of the [for] loop of [approxFraction]. *)
Definition approx_step (x : Q) (best : Best) (d : Z) : Best :=
  let n := JS.round (x * inject_Z d) in
  let err := frac_err x n d in
  if JS.Qltb err (best_err best)
  then {| best_n := n; best_d := d; best_err := err |}
  else best.

Definition approx_loop (x : Q) (maxDen : nat) : Best :=
  fold_left (approx_step x) (List.map Z.of_nat (seq 1 maxDen))
            {| best_n := 0; best_d := 1; best_err := 1 |}.

(** [approxFraction(x, maxDen)].  Past the guard [x] is finite and
    positive; the numerator and the denominator are integers and are
    carried as such. *)
Definition approxFraction (x : number) (maxDen : nat) : Z * Z :=
  if negb (JS.isFinite x) || (x <=? JS.Fin 0)%js then (0%Z, 1%Z)
  else
    let best := approx_loop (JS.toQ x) maxDen in
    if (best_n best =? 0)%Z then (0%Z, 1%Z)
    else
      let g := gcd (best_n best) (best_d best) in
      ((best_n best / g)%Z, (best_d best / g)%Z).

(** What the table shows for one row: the fraction next to the
    proportion and the proportion after rounding. *)
Record Rendered : Type := mkRendered {
  r_row : Row;
  r_frac : Z * Z;
  r_propAfter : number
}.

Definition render (st : State) : list Rendered :=
  List.map (fun r =>
    {| r_row := r;
       r_frac := approxFraction (prop r) 20;
       r_propAfter := propAfter st r |})
    (finalRows st).

(** ** Handlers that edit the grid *)

(** [updateHours(employeeId, dateStr, value)] *)
Definition updateHours (employeeId : string) (dateStr : Z) (value : number)
    (grid : gmap string (gmap Z number)) : gmap string (gmap Z number) :=
  <[employeeId := <[dateStr := value]> (default ∅ (grid !! employeeId))]> grid.

(** The [onChange] handler of one cell of the grid. *)
Definition onHoursChange (employeeId : string) (dateStr : Z) (value : string)
    (st : State) : State :=
  setHoursGrid
    (updateHours employeeId dateStr (JS.parseFloat value || JS.Fin 0)%js (hoursGrid st))
    st.

(** Every date of [dates] gets an entry, [0] when it has none yet. *)
Definition ensureDates (dates : list Z) (perDay : gmap Z number) : gmap Z number :=
  fold_left (fun m d => match m !! d with
                        | Some _ => m
                        | None => <[d := JS.Fin 0]> m
                        end) dates perDay.

(** The effect run when [employees] or [weekStart] change: every employee
    gets a row, every day of the selected week gets an entry, rows of
    removed employees are dropped.  Entries of other weeks stay. *)
Definition syncGrid (st : State) : State :=
  let dates := getWeekDates (weekStart st) in
  let next :=
    fold_left (fun g emp =>
                 <[id emp := ensureDates dates (default ∅ (g !! id emp))]> g)
              (employees st) (hoursGrid st) in
  setHoursGrid
    (filter (fun kv => Exists (fun e => id e = kv.1) (employees st)) next)
    st.

(** The [onChange] handler of the week field, followed by the effect. *)
Definition onWeekStartChange (start : Z) (st : State) : State :=
  syncGrid (setWeekStart start st).

(** The [onChange] handler of the pool field. *)
Definition onTotalTipsChange (value : string) (st : State) : State :=
  setTotalTips value st.

(** [updateEmployee(id, field, value)] for the two fields the form edits,
    followed by the effect. *)
Inductive Field : Type :=
  | field_name
  | field_type.

Definition updateEmployee (i : string) (field : Field) (value : string)
    (st : State) : State :=
  syncGrid
    (setEmployees
       (List.map (fun e =>
          if (id e =? i)%string
          then match field with
               | field_name => mkEmployee (id e) value (hours e) (type e)
               | field_type => mkEmployee (id e) (name e) (hours e) (Some value)
               end
          else e)
          (employees st))
       st).

(** ** The invariant of the loop of [approxFraction] *)

(** Error of the best fraction of denominator [d]. *)
Definition err_at (x : Q) (d : Z) : Q :=
  frac_err x (JS.round (x * inject_Z d)) d.

(** After the denominators [1..k]: the recorded error is minimal among
    them, and the recorded denominator is the first one that reaches it. *)
Definition loop_inv (x : Q) (k : Z) (best : Best) : Prop :=
  (forall d', (1 <= d' <= k)%Z -> best_err best <= err_at x d')
  /\ ((k = 0%Z /\ best = {| best_n := 0; best_d := 1; best_err := 1 |})
      \/ ((1 <= best_d best <= k)%Z
          /\ best_n best = JS.round (x * inject_Z (best_d best))
          /\ best_err best = err_at x (best_d best)
          /\ forall d', (1 <= d' < best_d best)%Z -> best_err best < err_at x d')).

(** ** Predicates used in the statements *)

(** [fin a]: the number is finite. *)
Definition fin (a : number) : Prop := JS.isFinite a = true.

(** [not_inf a]: the number is finite or [NaN]; [(a || 0)] is then finite. *)
Definition is_inf (a : number) : bool :=
  match a with
  | JS.PInf => true
  | JS.NInf => true
  | _ => false
  end.

Definition not_inf (a : number) : Prop := is_inf a = false.

(** [nonneg a]: the number is finite and at least 0. *)
Definition nonneg (a : number) : Prop :=
  fin a /\ (JS.Fin 0 <=? a)%js = true.

(** Every entry of the grid satisfies [P]. *)
Definition grid_all (P : number -> Prop) (st : State) : Prop :=
  map_Forall (fun _ perDay => map_Forall (fun _ v => P v) perDay) (hoursGrid st).

(** A state without infinities: no entry of the grid and no pool text
    denotes one, and the restaurant share is finite. *)
Definition finite_state (st : State) : Prop :=
  grid_all not_inf st /\ fin (restaurantShare st) /\ not_inf (JS.parseFloat (totalTips st)).

(** A valid allocation input in the sense of the specification: hours
    are non-negative, the pool is non-negative and the restaurant share
    lies in [0, 1). *)
Definition valid_input (st : State) : Prop :=
  grid_all nonneg st
  /\ fin (restaurantShare st)
  /\ 0 <= JS.toQ (restaurantShare st) < 1
  /\ not_inf (JS.parseFloat (totalTips st))
  /\ 0 <= JS.toQ (totalTipsValue st).

(** Sum of a list of numbers, left to right. *)
Definition sum (l : list number) : number :=
  fold_left JS.add l (JS.Fin 0).

(** Rounding to the nearest integer with ties away from zero, as the
    specification words it. *)
Definition round_half_away (x : Q) : Z :=
  if Qle_bool 0 x then Qfloor (x + (1 # 2)) else (- Qfloor (- x + (1 # 2)))%Z.

(** The share of the restaurant, as the clamping claim words it: always
    between 0 and 0.99. *)
Definition share_clamped (st : State) : Prop :=
  (JS.Fin 0 <=? restaurantShare st)%js = true
  /\ (restaurantShare st <=? JS.Fin (99 # 100))%js = true.

(** The exclusion claim read on the live table: an employee without a
    name, or without hours in the selected week, has no points and no
    amount there. *)
Definition excluded_in_table (st : State) : Prop :=
  forall e r,
    In e (employees st) ->
    In r (employeeRows st) ->
    tot_id (pt_emp (row_emp r)) = id e ->
    name e = ""%string \/ JS.equiv (weekTotal st (id e)) (JS.Fin 0) ->
    JS.equiv (points (row_emp r)) (JS.Fin 0)
    /\ JS.equiv (weeklyRounded r) (JS.Fin 0).

(** ** Sessions *)

(** The state of the component when it is mounted, with the Monday of the
    current week as the start of the week. *)
Definition initial (monday : Z) : State :=
  {| totalTips := "";
     employees := [ {| id := "1"; name := ""; hours := JS.Fin 0; type := None |} ];
     hoursGrid := ∅;
     weekStart := monday;
     restaurantShare := JS.Fin (2 # 100) |}.

(** What the user can do to the state. *)
Inductive Event : Type :=
  | PoolTyped (value : string)
  | HoursTyped (employeeId : string) (dateStr : Z) (value : string)
  | ShareTyped (value : string)
  | WeekPicked (start : Z)
  | EmployeeEdited (employeeId : string) (field : Field) (value : string).

Definition handle (st : State) (ev : Event) : State :=
  match ev with
  | PoolTyped value => onTotalTipsChange value st
  | HoursTyped employeeId dateStr value => onHoursChange employeeId dateStr value st
  | ShareTyped value => onRestaurantShareChange value st
  | WeekPicked start => onWeekStartChange start st
  | EmployeeEdited employeeId field value => updateEmployee employeeId field value st
  end.

(** A session: the effect runs once after mounting, then the events are
    handled in order. *)
Definition session (monday : Z) (evs : list Event) : State :=
  fold_left handle evs (syncGrid (initial monday)).

(** The text typed does not read as an infinity. *)
Definition plain (ev : Event) : Prop :=
  match ev with
  | PoolTyped value => not_inf (JS.parseFloat value)
  | HoursTyped _ _ value => not_inf (JS.parseFloat value)
  | ShareTyped value => not_inf (JS.parseFloat value)
  | WeekPicked _ => True
  | EmployeeEdited _ _ _ => True
  end.

(** ** States used by the examples *)

Definition waiterA : Employee :=
  {| id := "1"; name := "A"; hours := JS.Fin 0; type := Some "waiter"%string |}.
Definition waiterB : Employee :=
  {| id := "2"; name := "B"; hours := JS.Fin 0; type := Some "waiter"%string |}.

(** Five days of eight hours for A (40 h), five days of six for B (30 h),
    a pool of 500 and no restaurant share. *)
Definition scenario : State :=
  {| totalTips := "500";
     employees := [waiterA; waiterB];
     hoursGrid :=
       <["1"%string := list_to_map
           [(0, JS.Fin 8); (1, JS.Fin 8); (2, JS.Fin 8); (3, JS.Fin 8); (4, JS.Fin 8)]%Z]>
       (<["2"%string := list_to_map
           [(0, JS.Fin 6); (1, JS.Fin 6); (2, JS.Fin 6); (3, JS.Fin 6); (4, JS.Fin 6)]%Z]> ∅);
     weekStart := 0;
     restaurantShare := JS.Fin 0 |}.

(** The rows of A and B in the table of the scenario. *)
Definition scenario_rowA : Row := nth 0 (employeeRows scenario) (restaurantRow scenario).
Definition scenario_rowB : Row := nth 1 (employeeRows scenario) (restaurantRow scenario).

Definition scenario_A : Pointed := row_emp scenario_rowA.
Definition scenario_B : Pointed := row_emp scenario_rowB.

(** The component just mounted: an empty pool field, one employee
    without a name, no hours. *)
Definition degenerate : State := session 0 [].

(** The employee is named A and the pool is 100. *)
Definition fresh : State :=
  session 0 [EmployeeEdited "1" field_name "A"; PoolTyped "100"].

(** Eight hours typed on day 0, then the next week selected and five
    hours typed on day 7. *)
Definition two_weeks : State :=
  session 0 [EmployeeEdited "1" field_name "A"; PoolTyped "100";
             HoursTyped "1" 0 "8"; WeekPicked 7; HoursTyped "1" 7 "5"].

(** One employee with eight hours and a pool text that is not a number. *)
Definition bad_pool : State :=
  session 0 [EmployeeEdited "1" field_name "A"; HoursTyped "1" 0 "8"; PoolTyped "abc"].

(** One employee with eight hours whose name was left empty. *)
Definition unnamed : State :=
  session 0 [PoolTyped "100"; HoursTyped "1" 0 "8"].

(** A pool of 12.5 for one employee and no restaurant share: the raw
    amount is half way between two multiples of 5. *)
Definition tie : State :=
  session 0 [EmployeeEdited "1" field_name "A"; ShareTyped "0"; PoolTyped "12.5";
             HoursTyped "1" 0 "8"].

(** * The rest of the component *)

(** ** The week shown first *)

(** [getDay] of the day numbered [n]: Sunday is 0, and day 0 is Thursday
    1 January 1970. *)
Definition getDay (n : Z) : Z := ((n + 4) mod 7)%Z.

(** The initial value of [weekStart]: "find Monday of current week". *)
Definition currentMonday (today : Z) : Z :=
  let day := getDay today in
  let diff := ((if (day =? 0)%Z then -6 else 1) - day)%Z in
  (today + diff)%Z.

(** ** Integers as text: [parseInt] and [toString] *)

(** An integer-valued number is carried as [Some z] and [NaN] as [None]. *)
Definition digit_val (c : ascii) : option Z :=
  let n := Z.of_N (N_of_ascii c) in
  if ((48 <=? n) && (n <=? 57))%Z then Some (n - 48)%Z
  else if ((97 <=? n) && (n <=? 122))%Z then Some (n - 87)%Z
  else if ((65 <=? n) && (n <=? 90))%Z then Some (n - 55)%Z
  else None.

(** The longest run of digits of the radix: its value and its length. *)
Fixpoint digits_radix (radix : Z) (s : string) (acc : Z) (cnt : Z) : Z * Z :=
  match s with
  | String c s' =>
      match digit_val c with
      | Some d =>
          if (d <? radix)%Z
          then digits_radix radix s' (radix * acc + d)%Z (cnt + 1)%Z
          else (acc, cnt)
      | None => (acc, cnt)
      end
  | EmptyString => (acc, cnt)
  end.

(** [parseInt(s)] without a radix: leading white space, a sign, [0x] for
    hexadecimal, then digits; [NaN] when there is no digit. *)
Definition parseInt (s : string) : option Z :=
  let '(negative, s0) := JS.read_sign (JS.trimStart s) in
  let '(radix, s1) :=
    match s0 with
    | String "0" (String "x" r) => (16%Z, r)
    | String "0" (String "X" r) => (16%Z, r)
    | _ => (10%Z, s0)
    end in
  let '(v, cnt) := digits_radix radix s1 0%Z 0%Z in
  if (cnt =? 0)%Z then None else Some (if negative then (- v)%Z else v).

Definition digit_char (d : Z) : ascii := ascii_of_N (Z.to_N (48 + d)).

(** The decimal digits of a non-negative integer, written in front of
    [acc]. *)
Fixpoint digits_of (fuel : nat) (n : Z) (acc : string) : string :=
  match fuel with
  | O => acc
  | S fuel' =>
      let acc' := String (digit_char (n mod 10)) acc in
      if (n / 10 =? 0)%Z then acc' else digits_of fuel' (n / 10)%Z acc'
  end.

(** [toString()] of an integer-valued number or of [NaN]. *)
Definition toString (v : option Z) : string :=
  match v with
  | None => "NaN"
  | Some n =>
      if (n <? 0)%Z
      then String "-" (digits_of (S (Z.to_nat (- n))) (- n)%Z "")
      else digits_of (S (Z.to_nat n)) n ""
  end.

(** [Math.max] of two such numbers: [NaN] as soon as one of them is. *)
Definition max2 (a b : option Z) : option Z :=
  match a, b with
  | Some x, Some y => Some (Z.max x y)
  | _, _ => None
  end.

(** [Math.max(...employees.map(e => parseInt(e.id)), 0)] *)
Definition maxId (ids : list string) : option Z :=
  fold_right (fun i acc => max2 (parseInt i) acc) (Some 0%Z) ids.

(** ** Adding and removing employees *)

(** The [newId] of [addEmployee]. *)
Definition nextId (st : State) : string :=
  toString (option_map (fun m => (m + 1)%Z) (maxId (List.map id (employees st)))).

(** [addEmployee], followed by the effect. *)
Definition addEmployee (st : State) : State :=
  let newId := nextId st in
  syncGrid
    (setHoursGrid (<[newId := ∅]> (hoursGrid st))
       (setEmployees
          (employees st ++ [mkEmployee newId "" (JS.Fin 0) (Some "waiter"%string)])
          st)).

(** [removeEmployee(id)], followed by the effect when something changed. *)
Definition removeEmployee (i : string) (st : State) : State :=
  if (1 <? length (employees st))%nat
  then
    syncGrid
      (setHoursGrid (delete i (hoursGrid st))
         (setEmployees
            (List.filter (fun e => negb (id e =? i)%string) (employees st))
            st))
  else st.

(** ** Employees loaded when the component is mounted *)

(** One element of the list answered by [/employees]. *)
Record Fetched : Type := mkFetched {
  f_name : option string;
  f_role : option string
}.

(** "Map to local Employee shape and assign stable ids" *)
Definition mapFetched (data : list Fetched) : list Employee :=
  imap (fun idx d =>
          mkEmployee (toString (Some (Z.of_nat idx + 1)%Z))
                     (str_or (f_name d) "")
                     (JS.Fin 0)
                     (Some (str_or (f_role d) "waiter")))
       data.

(** The handler of the answer: an empty list changes nothing. *)
Definition onEmployeesFetched (data : list Fetched) (st : State) : State :=
  if (0 <? length data)%nat
  then syncGrid (setEmployees (mapFetched data) st)
  else st.

(** The handler of the list kept in [localStorage], used when the
    request fails: the employees are taken as they were stored. *)
Definition onEmployeesStored (parsed : list Employee) (st : State) : State :=
  if (0 <? length parsed)%nat
  then syncGrid (setEmployees parsed st)
  else st.

(** ** Everything that can happen *)

(** What happens to the state: the user edits, adds or removes an
    employee, or the list of employees asked for at mount time arrives. *)
Inductive Action : Type :=
  | Edit (ev : Event)
  | Add
  | Remove (employeeId : string)
  | Loaded (data : list Fetched).

Definition act (st : State) (a : Action) : State :=
  match a with
  | Edit ev => handle st ev
  | Add => addEmployee st
  | Remove employeeId => removeEmployee employeeId st
  | Loaded data => onEmployeesFetched data st
  end.

(** The component mounted on day [today], then the actions in order. *)
Definition run (today : Z) (acts : list Action) : State :=
  fold_left act acts (syncGrid (initial (currentMonday today))).

(** Only a text that does not read as an infinity is typed. *)
Definition plain_action (a : Action) : Prop :=
  match a with
  | Edit ev => plain ev
  | _ => True
  end.

(** ** The footer of the grid *)

(** [colTotal]: the total of one day over the employees. *)
Definition colTotal (st : State) (dateStr : Z) : number :=
  fold_left (fun s e => (s + JS.or0 (gridEntry st (id e) dateStr))%js)
            (employees st) (JS.Fin 0).

(** ** Predicates of the additional statements *)

(** The ids of the employees, in order. *)
Definition ids (st : State) : list string := List.map id (employees st).

(** An id that [parseInt] reads as a number. *)
Definition numeric (i : string) : Prop := parseInt i <> None.

(** The state the handlers keep: at least one employee, ids that are
    numbers and distinct, and for every employee an entry for every day of
    the selected week. *)
Definition well_formed (st : State) : Prop :=
  employees st <> []
  /\ NoDup (ids st)
  /\ Forall numeric (ids st)
  /\ (forall i d, In i (ids st) -> In d (getWeekDates (weekStart st)) ->
        is_Some (gridEntry st i d)).

(** A list stored with an id that is not a number. *)
Definition stored_x : State :=
  onEmployeesStored [mkEmployee "x" "Ann" (JS.Fin 0) None] (syncGrid (initial 0)).

(** Two employees, A with 8 hours on day 0 and a second one with 4. *)
Definition pair : State :=
  run 4 [Edit (EmployeeEdited "1" field_name "A"); Edit (PoolTyped "100"); Add;
         Edit (HoursTyped "1" 4 "8"); Edit (HoursTyped "2" 4 "4")].

(** Sum of a list of rationals. *)
Definition Qsum (l : list Q) : Q := fold_right Qplus 0 l.

(** * Properties *)

(** ** Rationals and numbers *)

Lemma Qltb_lt (a b : Q) : JS.Qltb a b = true <-> a < b.
Proof.
  unfold JS.Qltb. rewrite negb_true_iff.
  destruct (Qle_bool b a) eqn:E.
  - apply Qle_bool_iff in E. split; [discriminate | intros H; lra].
  - split; [intros _ | reflexivity].
    destruct (Qlt_le_dec a b) as [H | H]; [exact H |].
    apply Qle_bool_iff in H. congruence.
Qed.

Lemma Qltb_ge (a b : Q) : JS.Qltb a b = false <-> b <= a.
Proof.
  destruct (JS.Qltb a b) eqn:E.
  - apply Qltb_lt in E. split; [discriminate | intros H; lra].
  - split; [intros _ | reflexivity].
    destruct (Qlt_le_dec a b) as [H | H]; [| exact H].
    apply Qltb_lt in H. congruence.
Qed.

Lemma is_zero_true (a : Q) : JS.is_zero a = true <-> a == 0.
Proof. unfold JS.is_zero. apply Qeq_bool_iff. Qed.

Lemma is_zero_false (a : Q) : JS.is_zero a = false <-> ~ a == 0.
Proof.
  unfold JS.is_zero. destruct (Qeq_bool a 0) eqn:E.
  - apply Qeq_bool_iff in E. split; [discriminate | tauto].
  - split; [| reflexivity]. intros _ H. apply Qeq_bool_iff in H. congruence.
Qed.

Section NumberFacts.

Implicit Types a b c : number.

Lemma fin_Fin (q : Q) : fin (JS.Fin q).
Proof. reflexivity. Qed.

Lemma fin_toQ a : fin a -> a = JS.Fin (JS.toQ a).
Proof. destruct a; simpl; unfold fin; simpl; congruence. Qed.

Lemma equiv_refl a : JS.equiv a a.
Proof. destruct a; simpl; auto. reflexivity. Qed.

Lemma equiv_sym a b : JS.equiv a b -> JS.equiv b a.
Proof. destruct a, b; simpl; auto. intros H. symmetry. exact H. Qed.

Lemma equiv_trans a b c :
  JS.equiv a b -> JS.equiv b c -> JS.equiv a c.
Proof.
  destruct a, b, c; simpl; auto; try tauto.
  intros H1 H2. rewrite H1. exact H2.
Qed.

Lemma fin_add a b : fin a -> fin b -> fin (a + b)%js.
Proof. destruct a, b; unfold fin; simpl; congruence. Qed.

Lemma fin_sub a b : fin a -> fin b -> fin (a - b)%js.
Proof. destruct a, b; unfold fin; simpl; congruence. Qed.

Lemma fin_mul a b : fin a -> fin b -> fin (a * b)%js.
Proof. destruct a, b; unfold fin; simpl; congruence. Qed.

Lemma fin_round a : fin a -> fin (JS.Math_round a).
Proof. destruct a; unfold fin; simpl; congruence. Qed.

Lemma fin_div a b :
  fin a -> fin b -> ~ JS.toQ b == 0 -> fin (a / b)%js.
Proof.
  destruct a, b; unfold fin; simpl; try congruence.
  intros _ _ H. apply is_zero_false in H. rewrite H. reflexivity.
Qed.

Lemma fin_or_zero a : not_inf a -> fin (a || JS.Fin 0)%js.
Proof.
  unfold not_inf. destruct a; unfold JS.or; simpl; try congruence; try reflexivity.
  destruct (negb (JS.is_zero q)); reflexivity.
Qed.

Lemma nonneg_toQ a : nonneg a -> fin a /\ 0 <= JS.toQ a.
Proof.
  intros [Hf Hle]. split; [exact Hf |].
  rewrite (fin_toQ _ Hf) in Hle. simpl in Hle. apply Qle_bool_iff, Hle.
Qed.

Lemma or_zero_toQ a : JS.toQ (a || JS.Fin 0)%js == JS.toQ a.
Proof.
  destruct a; unfold JS.or; simpl; try reflexivity.
  destruct (JS.is_zero q) eqn:E; simpl; [| reflexivity].
  apply is_zero_true in E. rewrite E. reflexivity.
Qed.

(** Addition is commutative and associative up to [JS.equiv], infinities
    and [NaN] included, so the order in which a sum is folded does not
    matter. *)
Lemma add_comm a b : JS.equiv (a + b)%js (b + a)%js.
Proof. destruct a, b; simpl; auto. ring. Qed.

Lemma add_assoc a b c : JS.equiv (a + (b + c))%js ((a + b) + c)%js.
Proof. destruct a, b, c; simpl; auto. ring. Qed.

End NumberFacts.

Create HintDb fin discriminated.
#[global] Hint Resolve fin_Fin fin_add fin_sub fin_mul fin_round fin_or_zero : fin.

(** ** The worked scenario *)

(** C7. With a pool of 500, no restaurant share and two waiters A (40 h)
    and B (30 h), the points are 32 and 24 (56 in total), the amounts
    rounded to the denomination 5 are 285 and 215, and the restaurant's
    amount is 500 - 500 = 0. *)
Theorem scenario_amounts :
  Forall2 JS.equiv (List.map total (employeeTotals scenario)) [JS.Fin 40; JS.Fin 30]
  /\ Forall2 JS.equiv (List.map mult (totalsWithPoints scenario))
                      [JS.Fin (8 # 10); JS.Fin (8 # 10)]
  /\ Forall2 JS.equiv (List.map points (totalsWithPoints scenario)) [JS.Fin 32; JS.Fin 24]
  /\ JS.equiv (totalEmployeePoints scenario) (JS.Fin 56)
  /\ Forall2 JS.equiv (List.map weeklyRounded (employeeRows scenario))
                      [JS.Fin 285; JS.Fin 215]
  /\ JS.equiv (sumEmployeesRounded scenario) (JS.Fin 500)
  /\ JS.equiv (weeklyRounded (restaurantRow scenario)) (JS.Fin 0).
Proof.
  vm_compute. repeat split; repeat constructor; reflexivity.
Qed.

(** ** Weekly aggregation *)

(** C6. After hours were typed in one week and the next week was
    selected, [calculateTips] still counts the first week's hours: with 8
    hours on day 0 and 5 hours on day 7 of the selected week it sends a
    total of 13, and 13 is what the page shows as the total for the
    selected week, while the table's total for that week is 5. *)
Theorem calculateTips_counts_other_weeks :
  weekStart two_weeks = 7%Z
  /\ Forall2 JS.equiv (List.map totalHours (employeesWithTotals two_weeks)) [JS.Fin 13]
  /\ (exists body, calculateTips two_weeks = Submit body
                   /\ Forall2 JS.equiv (List.map req_hours (req_employees body)) [JS.Fin 13])
  /\ JS.equiv (totalHours_all two_weeks) (JS.Fin 13)
  /\ Forall2 JS.equiv (List.map total (employeeTotals two_weeks)) [JS.Fin 5].
Proof.
  split; [reflexivity | split; [| split; [| split]]].
  - vm_compute. repeat constructor.
  - eexists. split; [vm_compute; reflexivity |].
    vm_compute. repeat constructor.
  - vm_compute. reflexivity.
  - vm_compute. repeat constructor.
Qed.

(** ** Validation *)


(** [calculateTips] reports an error exactly when the pool text is empty,
    or parses to a number that is at most 0, or no employee has both a
    name and a positive total. *)
Lemma calculateTips_invalid_iff (st : State) :
  (exists m, calculateTips st = InvalidInput m)
  <-> totalTips st = ""%string
      \/ (JS.parseFloat (totalTips st) <=? JS.Fin 0)%js = true
      \/ validEmployees st = [].
Proof.
  unfold calculateTips.
  destruct (totalTips st) as [| c t] eqn:Et; simpl.
  - split; [auto | intros _; eexists; reflexivity].
  - destruct (JS.le _ _) eqn:Ele.
    + split; [auto | intros _; eexists; reflexivity].
    + destruct (validEmployees st) as [| e l] eqn:Ev; simpl.
      * split; [auto | intros _; eexists; reflexivity].
      * split.
        -- intros [m Hm]. discriminate.
        -- intros [H | [H | H]]; discriminate.
Qed.

(** On success the request carries the parsed pool and every valid
    employee, in order. *)
Lemma calculateTips_submit (st : State) (body : Request) :
  calculateTips st = Submit body ->
  total_tips body = JS.parseFloat (totalTips st)
  /\ List.map req_name (req_employees body) = List.map wt_name (validEmployees st)
  /\ List.map req_hours (req_employees body) = List.map totalHours (validEmployees st)
  /\ validEmployees st <> [].
Proof.
  unfold calculateTips.
  destruct (negb _ || _); [discriminate |].
  destruct (validEmployees st) as [| e l] eqn:Ev; simpl; [discriminate |].
  intros H. injection H as <-. simpl.
  rewrite !List.map_map. simpl. repeat split. discriminate.
Qed.

(** ** The restaurant share *)

(** Typing 150 in the share field gives a share of 1.5, above 0.99. *)
Lemma share_150_not_clamped :
  ~ share_clamped (onRestaurantShareChange "150" fresh).
Proof.
  unfold share_clamped. vm_compute. intros [_ H]. discriminate.
Qed.

(** C4, amended. The share field clamps from below only: a typed
    percentage [v] is stored as [max(0, v) / 100], so a negative value
    becomes 0 and a value of 100 or more is kept and gives a share of 1 or
    more; a text that does not parse leaves the share as it was. *)
Theorem restaurant_share_lower_clamp (value : string) (st : State) :
  (forall v, JS.parseFloat value = JS.Fin v ->
     exists s, restaurantShare (onRestaurantShareChange value st) = JS.Fin s
               /\ 0 <= s
               /\ (0 <= v -> s == v / 100)
               /\ (v <= 0 -> s == 0))
  /\ (JS.parseFloat value = JS.NaN -> onRestaurantShareChange value st = st).
Proof.
  unfold onRestaurantShareChange. split.
  - intros v Hv. rewrite Hv. simpl.
    destruct (JS.Qltb 0 v) eqn:E; simpl.
    + apply Qltb_lt in E. exists (v / 100).
      split; [reflexivity | split; [| split]].
      * apply Qle_shift_div_l; lra.
      * intros _. reflexivity.
      * intros H. lra.
    + apply Qltb_ge in E. exists (0 / 100).
      split; [reflexivity | split; [| split]].
      * unfold Qdiv. lra.
      * intros H. assert (v == 0) as -> by lra. reflexivity.
      * intros _. reflexivity.
  - intros Hv. rewrite Hv. reflexivity.
Qed.

Lemma restaurant_share_lower_clamp_witness :
  (exists s, restaurantShare (onRestaurantShareChange "150" fresh) = JS.Fin s
             /\ 0 <= s /\ (0 <= 150 -> s == 150 / 100) /\ (150 <= 0 -> s == 0))
  /\ onRestaurantShareChange "-" fresh = fresh.
Proof.
  split.
  - apply (proj1 (restaurant_share_lower_clamp "150" fresh) 150). reflexivity.
  - apply (proj2 (restaurant_share_lower_clamp "-" fresh)). reflexivity.
Defined.

(** ** Finiteness of the live table *)

Lemma grid_all_impl (P R : number -> Prop) (st : State) :
  (forall v, P v -> R v) -> grid_all P st -> grid_all R st.
Proof.
  intros HPR H i perDay Hi d v Hd. apply HPR. exact (H i perDay Hi d v Hd).
Qed.

Lemma grid_all_entry (P : number -> Prop) (st : State) i d v :
  grid_all P st -> gridEntry st i d = Some v -> P v.
Proof.
  unfold gridEntry. intros H Hv.
  destruct (hoursGrid st !! i) as [perDay |] eqn:Ei; simpl in Hv; [| discriminate].
  exact (H i perDay Ei d v Hv).
Qed.

Lemma fin_not_inf (a : number) : fin a -> not_inf a.
Proof. destruct a; unfold fin, not_inf; simpl; congruence. Qed.

Lemma valid_input_finite (st : State) : valid_input st -> finite_state st.
Proof.
  intros (Hg & Hs & _ & Hp & _). split; [| split; [exact Hs | exact Hp]].
  revert Hg. apply grid_all_impl. intros v [Hv _]. apply fin_not_inf, Hv.
Qed.

Lemma or0_fin (o : option number) :
  (forall v, o = Some v -> not_inf v) -> fin (JS.or0 o).
Proof.
  destruct o as [v |]; simpl; intros H; [| reflexivity].
  apply fin_or_zero. apply H. reflexivity.
Qed.

Lemma or0_nonneg (o : option number) :
  (forall v, o = Some v -> nonneg v) -> 0 <= JS.toQ (JS.or0 o).
Proof.
  destruct o as [v |]; simpl; intros H; [| lra].
  rewrite or_zero_toQ. apply nonneg_toQ, H. reflexivity.
Qed.

Lemma weekTotal_fin (st : State) (i : string) :
  grid_all not_inf st -> fin (weekTotal st i).
Proof.
  intros Hg. unfold weekTotal.
  generalize (getWeekDates (weekStart st)).
  assert (fin (JS.Fin 0)) as Hacc by reflexivity. revert Hacc.
  generalize (JS.Fin 0). intros acc Hacc dates. revert acc Hacc.
  induction dates as [| d dates IH]; intros acc Hacc; simpl; [exact Hacc |].
  apply IH. apply fin_add; [exact Hacc |].
  apply or0_fin. intros v Hv. exact (grid_all_entry _ _ _ _ _ Hg Hv).
Qed.

Lemma weekTotal_nonneg (st : State) (i : string) :
  grid_all nonneg st -> 0 <= JS.toQ (weekTotal st i).
Proof.
  intros Hg. unfold weekTotal.
  generalize (getWeekDates (weekStart st)).
  assert (fin (JS.Fin 0) /\ 0 <= JS.toQ (JS.Fin 0)) as Hacc by (split; [reflexivity | simpl; lra]).
  revert Hacc. generalize (JS.Fin 0). intros acc Hacc dates.
  enough (fin (fold_left (fun s d => (s + JS.or0 (gridEntry st i d))%js) dates acc)
          /\ 0 <= JS.toQ (fold_left (fun s d => (s + JS.or0 (gridEntry st i d))%js) dates acc))
    as [_ H] by exact H.
  revert acc Hacc.
  induction dates as [| d dates IH]; intros acc [Hf Hq]; simpl; [split; assumption |].
  apply IH.
  assert (fin (JS.or0 (gridEntry st i d))) as Hf'.
  { apply or0_fin. intros v Hv. apply fin_not_inf.
    exact (proj1 (grid_all_entry _ _ _ _ _ Hg Hv)). }
  assert (0 <= JS.toQ (JS.or0 (gridEntry st i d))) as Hq'.
  { apply or0_nonneg. intros v Hv. exact (grid_all_entry _ _ _ _ _ Hg Hv). }
  split; [apply fin_add; assumption |].
  rewrite (fin_toQ _ Hf), (fin_toQ _ Hf'). simpl. lra.
Qed.

(** The table's total of an employee depends on the seven days of the
    selected week only: entries under other dates do not count. *)
Lemma weekTotal_week_only (st st' : State) (i : string) :
  weekStart st = weekStart st' ->
  (forall d, In d (getWeekDates (weekStart st)) -> gridEntry st i d = gridEntry st' i d) ->
  weekTotal st i = weekTotal st' i.
Proof.
  intros Hw. unfold weekTotal. rewrite <- Hw.
  generalize (JS.Fin 0). generalize (getWeekDates (weekStart st)).
  intros dates. induction dates as [| d dates IH]; intros acc Hd; [reflexivity |].
  cbn [fold_left]. rewrite (Hd d) by (left; reflexivity).
  apply IH. intros d' Hd'. apply Hd. right. exact Hd'.
Qed.

Lemma getMultiplier_spec (t : string) :
  exists m, getMultiplier t = JS.Fin m /\ 0 < m <= 1.
Proof.
  unfold getMultiplier.
  repeat match goal with
         | |- context [if ?b then _ else _] => destruct b
         end; eexists; (split; [reflexivity | lra]).
Qed.

Lemma In_totalsWithPoints (st : State) (p : Pointed) :
  In p (totalsWithPoints st) ->
  exists e, In e (employees st)
            /\ tot_id (pt_emp p) = id e
            /\ total (pt_emp p) = weekTotal st (id e)
            /\ mult p = getMultiplier (tot_type (pt_emp p))
            /\ points p = (total (pt_emp p) * mult p)%js.
Proof.
  unfold totalsWithPoints, employeeTotals. rewrite List.map_map.
  intros H. apply in_map_iff in H as (e & <- & He). simpl.
  exists e. repeat split. exact He.
Qed.

Lemma points_fin (st : State) (p : Pointed) :
  grid_all not_inf st -> In p (totalsWithPoints st) -> fin (points p).
Proof.
  intros Hg Hp. apply In_totalsWithPoints in Hp as (e & _ & _ & Ht & Hm & ->).
  destruct (getMultiplier_spec (tot_type (pt_emp p))) as (m & Em & _).
  rewrite Hm, Em, Ht. apply fin_mul; [apply weekTotal_fin, Hg | reflexivity].
Qed.

Lemma points_nonneg (st : State) (p : Pointed) :
  grid_all nonneg st ->
  In p (totalsWithPoints st) -> 0 <= JS.toQ (points p).
Proof.
  intros Hg Hp. apply In_totalsWithPoints in Hp as (e & _ & _ & Ht & Hm & ->).
  destruct (getMultiplier_spec (tot_type (pt_emp p))) as (m & Em & Hm0).
  rewrite Hm, Em, Ht.
  assert (fin (weekTotal st (id e))) as Hf.
  { apply weekTotal_fin. revert Hg. apply grid_all_impl.
    intros v [Hv _]. apply fin_not_inf, Hv. }
  pose proof (weekTotal_nonneg st (id e) Hg) as Hq.
  rewrite (fin_toQ _ Hf). simpl. nra.
Qed.

(** A left-to-right sum of finite numbers is finite, and its value is
    the sum of the values. *)
Lemma fold_add_fin {A : Type} (f : A -> number) (l : list A) (acc : number) :
  fin acc -> (forall x, In x l -> fin (f x)) ->
  fin (fold_left (fun s e => (s + f e)%js) l acc)
  /\ JS.toQ (fold_left (fun s e => (s + f e)%js) l acc)
     == JS.toQ acc + fold_right Qplus 0 (List.map (fun e => JS.toQ (f e)) l).
Proof.
  revert acc. induction l as [| x l IH]; intros acc Hacc Hl; simpl.
  - split; [exact Hacc | lra].
  - assert (fin (f x)) as Hx by (apply Hl; left; reflexivity).
    destruct (IH (acc + f x)%js) as [IH1 IH2].
    + apply fin_add; assumption.
    + intros y Hy. apply Hl. right. exact Hy.
    + split; [exact IH1 |]. rewrite IH2.
      rewrite (fin_toQ _ Hacc), (fin_toQ _ Hx). simpl. lra.
Qed.

Lemma totalEmployeePoints_fin (st : State) :
  grid_all not_inf st -> fin (totalEmployeePoints st).
Proof.
  intros Hg. unfold totalEmployeePoints.
  apply fold_add_fin; [reflexivity |].
  intros p Hp. exact (points_fin st p Hg Hp).
Qed.

Lemma totalTipsValue_fin (st : State) :
  not_inf (JS.parseFloat (totalTips st)) -> fin (totalTipsValue st).
Proof. apply fin_or_zero. Qed.

Lemma gt_zero_toQ (a : number) :
  fin a -> (a >? JS.Fin 0)%js = true -> 0 < JS.toQ a.
Proof.
  intros Ha. rewrite (fin_toQ _ Ha). unfold JS.gt. simpl. apply Qltb_lt.
Qed.

(** The fields of an employee's row, one equation each. *)
Lemma rawPropPoints_eq (st : State) (p : Pointed) :
  rawPropPoints (employeeRow st p)
  = if (totalEmployeePoints st >? JS.Fin 0)%js
    then (points p / totalEmployeePoints st)%js
    else JS.Fin 0.
Proof. reflexivity. Qed.

Lemma prop_eq (st : State) (p : Pointed) :
  prop (employeeRow st p)
  = (rawPropPoints (employeeRow st p) * (JS.Fin 1 - restaurantShare st))%js.
Proof. reflexivity. Qed.

Lemma weeklyRaw_eq (st : State) (p : Pointed) :
  weeklyRaw (employeeRow st p) = (prop (employeeRow st p) * totalTipsValue st)%js.
Proof. reflexivity. Qed.

Lemma weeklyRounded_eq (st : State) (p : Pointed) :
  weeklyRounded (employeeRow st p)
  = (JS.Math_round (weeklyRaw (employeeRow st p) / JS.Fin 5) * JS.Fin 5)%js.
Proof. reflexivity. Qed.

Lemma rawPropPoints_fin (st : State) (p : Pointed) :
  grid_all not_inf st -> fin (points p) -> fin (rawPropPoints (employeeRow st p)).
Proof.
  intros Hg Hp. rewrite rawPropPoints_eq.
  destruct (JS.gt _ _) eqn:E; [| reflexivity].
  pose proof (totalEmployeePoints_fin st Hg) as Ht.
  apply fin_div; try assumption.
  pose proof (gt_zero_toQ _ Ht E). lra.
Qed.

Lemma employeeRow_fin (st : State) (p : Pointed) :
  finite_state st -> fin (points p) ->
  fin (rawPropPoints (employeeRow st p))
  /\ fin (prop (employeeRow st p))
  /\ fin (weeklyRaw (employeeRow st p))
  /\ fin (weeklyRounded (employeeRow st p)).
Proof.
  intros (Hg & Hs & Ht) Hp.
  pose proof (rawPropPoints_fin st p Hg Hp) as H1.
  assert (fin (prop (employeeRow st p))) as H2.
  { rewrite prop_eq. apply fin_mul; [exact H1 |].
    apply fin_sub; [reflexivity | exact Hs]. }
  assert (fin (weeklyRaw (employeeRow st p))) as H3.
  { rewrite weeklyRaw_eq. apply fin_mul; [exact H2 | apply totalTipsValue_fin, Ht]. }
  split; [exact H1 | split; [exact H2 | split; [exact H3 |]]].
  rewrite weeklyRounded_eq. apply fin_mul; [| reflexivity]. apply fin_round.
  apply fin_div; [exact H3 | reflexivity | simpl; lra].
Qed.

Lemma employeeRows_fin (st : State) (r : Row) :
  finite_state st -> In r (employeeRows st) ->
  fin (rawPropPoints r) /\ fin (prop r) /\ fin (weeklyRaw r) /\ fin (weeklyRounded r).
Proof.
  intros Hst Hr. unfold employeeRows in Hr.
  apply in_map_iff in Hr as (p & <- & Hp).
  apply employeeRow_fin; [exact Hst |].
  apply (points_fin st p); [apply Hst | exact Hp].
Qed.

Lemma sumEmployeesRounded_fin (st : State) :
  finite_state st -> fin (sumEmployeesRounded st).
Proof.
  intros Hst. unfold sumEmployeesRounded.
  apply fold_add_fin; [reflexivity |].
  intros r Hr. apply (employeeRows_fin st r Hst Hr).
Qed.

Lemma sum_map {A : Type} (f : A -> number) (l : list A) (acc : number) :
  fold_left JS.add (List.map f l) acc = fold_left (fun s e => (s + f e)%js) l acc.
Proof.
  revert acc. induction l as [| x l IH]; intros acc; simpl; [reflexivity | apply IH].
Qed.

(** ** Sessions stay free of infinities *)

Lemma not_inf_or_zero (a : number) : not_inf a -> not_inf (a || JS.Fin 0)%js.
Proof. intros H. apply fin_not_inf, fin_or_zero, H. Qed.

Lemma updateHours_all (P : number -> Prop) i d v (grid : gmap string (gmap Z number)) :
  P v ->
  map_Forall (fun _ perDay => map_Forall (fun _ w => P w) perDay) grid ->
  map_Forall (fun _ perDay => map_Forall (fun _ w => P w) perDay)
             (updateHours i d v grid).
Proof.
  intros Hv Hg. unfold updateHours. apply map_Forall_insert_2; [| exact Hg].
  apply map_Forall_insert_2; [exact Hv |].
  destruct (grid !! i) as [perDay |] eqn:E; simpl.
  - exact (Hg i perDay E).
  - apply map_Forall_empty.
Qed.

Lemma ensureDates_all (P : number -> Prop) (dates : list Z) (perDay : gmap Z number) :
  P (JS.Fin 0) ->
  map_Forall (fun _ w => P w) perDay ->
  map_Forall (fun _ w => P w) (ensureDates dates perDay).
Proof.
  intros H0. unfold ensureDates. revert perDay.
  induction dates as [| d dates IH]; intros perDay Hp; simpl; [exact Hp |].
  apply IH. destruct (perDay !! d); [exact Hp |].
  apply map_Forall_insert_2; assumption.
Qed.

Lemma sync_fold_all (P : number -> Prop) (dates : list Z) (emps : list Employee)
    (g : gmap string (gmap Z number)) :
  P (JS.Fin 0) ->
  map_Forall (fun _ perDay => map_Forall (fun _ w => P w) perDay) g ->
  map_Forall (fun _ perDay => map_Forall (fun _ w => P w) perDay)
    (fold_left (fun g emp => <[id emp := ensureDates dates (default ∅ (g !! id emp))]> g)
               emps g).
Proof.
  intros H0. revert g. induction emps as [| e emps IH]; intros g Hg; [exact Hg |].
  cbn [fold_left]. apply IH. apply map_Forall_insert_2; [| exact Hg].
  apply ensureDates_all; [exact H0 |].
  destruct (g !! id e) as [perDay |] eqn:E.
  - exact (Hg (id e) perDay E).
  - apply map_Forall_empty.
Qed.

Lemma syncGrid_all (P : number -> Prop) (st : State) :
  P (JS.Fin 0) -> grid_all P st -> grid_all P (syncGrid st).
Proof.
  intros H0 Hg. unfold grid_all, syncGrid. cbn [hoursGrid].
  intros i perDay Hi. apply map_lookup_filter_Some in Hi as [Hi _].
  exact (sync_fold_all P _ _ _ H0 Hg i perDay Hi).
Qed.

Lemma initial_finite (monday : Z) : finite_state (initial monday).
Proof.
  split; [| split; reflexivity].
  unfold grid_all. simpl. apply map_Forall_empty.
Qed.

Lemma syncGrid_finite (st : State) : finite_state st -> finite_state (syncGrid st).
Proof.
  intros (Hg & Hs & Ht). split; [| split; assumption].
  apply syncGrid_all; [reflexivity | exact Hg].
Qed.

Lemma handle_finite (st : State) (ev : Event) :
  finite_state st -> plain ev -> finite_state (handle st ev).
Proof.
  intros (Hg & Hs & Ht) Hev.
  destruct ev as [value | i d value | value | start | i field value]; simpl in Hev.
  - split; [exact Hg | split; [exact Hs | exact Hev]].
  - split; [| split; assumption].
    unfold grid_all. cbn [handle onHoursChange setHoursGrid hoursGrid].
    apply updateHours_all; [| exact Hg]. apply not_inf_or_zero, Hev.
  - cbn [handle]. unfold onRestaurantShareChange.
    destruct (JS.parseFloat value) as [| | | v]; simpl;
      try (split; [exact Hg | split; assumption]); try discriminate.
    split; [exact Hg | split; [| exact Ht]]. simpl.
    destruct (JS.Qltb 0 v); reflexivity.
  - apply syncGrid_finite. split; [exact Hg | split; assumption].
  - apply syncGrid_finite. split; [exact Hg | split; assumption].
Qed.

(** Whatever is typed, short of an infinity, the state stays free of
    infinities. *)
Lemma session_finite (monday : Z) (evs : list Event) :
  Forall plain evs -> finite_state (session monday evs).
Proof.
  unfold session. generalize (syncGrid_finite _ (initial_finite monday)).
  generalize (syncGrid (initial monday)). intros st Hst Hevs. revert st Hst.
  induction Hevs as [| ev evs Hev _ IH]; intros st Hst; simpl; [exact Hst |].
  apply IH, handle_finite; assumption.
Qed.

(** ** Conservation *)


(** The scenario is a valid input; its grid is checked by computation. *)
Lemma scenario_valid : valid_input scenario.
Proof.
  unfold valid_input. split; [| split; [reflexivity | split; [| split; [reflexivity |]]]].
  - unfold grid_all, nonneg, fin. apply (bool_decide_eq_true_1 _). vm_compute. reflexivity.
  - simpl. lra.
  - vm_compute. discriminate.
Qed.

Lemma two_weeks_finite : finite_state two_weeks.
Proof.
  apply session_finite. repeat constructor.
Qed.


(** ** The rows in exact arithmetic *)

(** The raw proportion of points, the proportion after the restaurant's
    cut and the raw amount of an employee, as rationals. *)
Lemma employeeRow_values (st : State) (p : Pointed) :
  finite_state st -> fin (points p) ->
  let T := JS.toQ (totalEmployeePoints st) in
  let rp := if JS.Qltb 0 T then JS.toQ (points p) / T else 0 in
  let pr := rp * (1 - JS.toQ (restaurantShare st)) in
  let raw := pr * JS.toQ (totalTipsValue st) in
  rawPropPoints (employeeRow st p) = JS.Fin rp
  /\ prop (employeeRow st p) = JS.Fin pr
  /\ weeklyRaw (employeeRow st p) = JS.Fin raw
  /\ weeklyRounded (employeeRow st p) = JS.Fin (inject_Z (JS.round (raw / 5)) * 5).
Proof.
  intros (Hg & Hs & Ht) Hp T rp pr raw.
  pose proof (totalEmployeePoints_fin st Hg) as HT.
  pose proof (totalTipsValue_fin st Ht) as HP.
  assert (rawPropPoints (employeeRow st p) = JS.Fin rp) as E1.
  { rewrite rawPropPoints_eq. unfold JS.gt.
    rewrite (fin_toQ _ HT), (fin_toQ _ Hp). fold T. simpl. subst rp.
    destruct (JS.Qltb 0 T) eqn:E; [| reflexivity].
    apply Qltb_lt in E.
    assert (JS.is_zero T = false) as -> by (apply is_zero_false; lra).
    reflexivity. }
  assert (prop (employeeRow st p) = JS.Fin pr) as E2.
  { rewrite prop_eq, E1, (fin_toQ _ Hs). reflexivity. }
  assert (weeklyRaw (employeeRow st p) = JS.Fin raw) as E3.
  { rewrite weeklyRaw_eq, E2, (fin_toQ _ HP). reflexivity. }
  split; [exact E1 | split; [exact E2 | split; [exact E3 |]]].
  rewrite weeklyRounded_eq, E3. reflexivity.
Qed.

Lemma round_comp (x y : Q) : x == y -> JS.round x = JS.round y.
Proof. intros H. unfold JS.round. apply Qfloor_comp. rewrite H. reflexivity. Qed.

Lemma round_half_away_nonneg (x : Q) : 0 <= x -> round_half_away x = JS.round x.
Proof.
  intros H. unfold round_half_away, JS.round.
  apply Qle_bool_iff in H. rewrite H. reflexivity.
Qed.

Lemma rawPropPoints_nonneg (T q : Q) :
  0 <= q -> 0 <= (if JS.Qltb 0 T then q / T else 0).
Proof.
  intros Hq. destruct (JS.Qltb 0 T) eqn:E; [| lra].
  apply Qltb_lt in E. apply Qle_shift_div_l; lra.
Qed.

(** ** Rounding *)


(** A raw amount of 12.5 is rounded up to 15, and the restaurant's row
    absorbs the excess with -2.5. *)
Lemma tie_rounds_away :
  Forall2 JS.equiv (List.map weeklyRaw (employeeRows tie)) [JS.Fin (25 # 2)]
  /\ Forall2 JS.equiv (List.map weeklyRounded (employeeRows tie)) [JS.Fin 15]
  /\ JS.equiv (weeklyRounded (restaurantRow tie)) (JS.Fin (- (5 # 2))).
Proof.
  vm_compute. repeat split; repeat constructor; reflexivity.
Qed.


(** ** Monotonicity *)



(** ** The restaurant's row and the proportion after rounding *)

Lemma restaurantRow_fin (st : State) :
  finite_state st ->
  fin (rawPropPoints (restaurantRow st)) /\ fin (prop (restaurantRow st))
  /\ fin (weeklyRaw (restaurantRow st)) /\ fin (weeklyRounded (restaurantRow st)).
Proof.
  intros Hst. pose proof Hst as (Hg & Hs & Ht).
  pose proof (totalTipsValue_fin st Ht) as HP.
  pose proof (sumEmployeesRounded_fin st Hst) as HS.
  unfold restaurantRow, restaurantAmount. cbn [rawPropPoints prop weeklyRaw weeklyRounded].
  repeat split; auto with fin.
Qed.

Lemma finalRows_fin (st : State) (r : Row) :
  finite_state st -> In r (finalRows st) ->
  fin (rawPropPoints r) /\ fin (prop r) /\ fin (weeklyRaw r) /\ fin (weeklyRounded r).
Proof.
  intros Hst Hr. unfold finalRows in Hr. apply in_app_or in Hr as [Hr | [<- | []]].
  - exact (employeeRows_fin st r Hst Hr).
  - exact (restaurantRow_fin st Hst).
Qed.

Lemma propAfter_fin (st : State) (r : Row) :
  not_inf (JS.parseFloat (totalTips st)) -> fin (weeklyRounded r) ->
  fin (propAfter st r).
Proof.
  intros Ht Hr. unfold propAfter.
  pose proof (totalTipsValue_fin st Ht) as HP.
  destruct (JS.gt _ _) eqn:E; [| reflexivity].
  apply fin_div; try assumption.
  pose proof (gt_zero_toQ _ HP E). lra.
Qed.

(** ** The fraction display helper *)

Lemma gcd_loop_spec (fuel : nat) (a b : Z) :
  (0 <= a)%Z -> (0 <= b)%Z -> (Z.to_nat b < fuel)%nat ->
  gcd_loop fuel a b = Z.gcd a b.
Proof.
  revert a b. induction fuel as [| fuel IH]; intros a b Ha Hb Hf; [lia |].
  simpl. destruct (Z.eqb_spec b 0) as [-> | Hne].
  - rewrite Z.gcd_0_r_nonneg; [reflexivity | exact Ha].
  - assert (0 < b)%Z as Hpos by lia.
    rewrite Z.rem_mod_nonneg by assumption.
    pose proof (Z.mod_pos_bound a b Hpos) as Hm.
    rewrite IH; try lia.
    rewrite Z.gcd_mod_r. apply Z.gcd_comm.
Qed.

Lemma gcd_spec (a b : Z) : gcd a b = Z.gcd a b.
Proof.
  unfold gcd. rewrite gcd_loop_spec; try lia.
  rewrite Z.gcd_abs_l, Z.gcd_abs_r. reflexivity.
Qed.

(** [Math.round y] is an integer [r] with [r <= y + 1/2 < r + 1]. *)
Ltac round_bounds y r :=
  unfold JS.round;
  set (r := Qfloor (y + (1 # 2)));
  let Hlo := fresh "Hlo" in
  let Hhi := fresh "Hhi" in
  pose proof (Qfloor_le (y + (1 # 2))) as Hlo;
  pose proof (Qlt_floor (y + (1 # 2))) as Hhi;
  fold r in Hlo, Hhi;
  rewrite inject_Z_plus in Hhi;
  change (inject_Z 1) with 1 in Hhi.

Lemma round_nearest (y : Q) (m : Z) :
  Qabs (y - inject_Z (JS.round y)) <= Qabs (y - inject_Z m).
Proof.
  round_bounds y r.
  assert (m + 1 <= r \/ m = r \/ r + 1 <= m)%Z as [Hm | [Hm | Hm]] by lia.
  - rewrite Zle_Qle, inject_Z_plus in Hm. change (inject_Z 1) with 1 in Hm.
    apply Qabs_case; intros; apply Qabs_case; intros; lra.
  - subst m. apply Qle_refl.
  - rewrite Zle_Qle, inject_Z_plus in Hm. change (inject_Z 1) with 1 in Hm.
    apply Qabs_case; intros; apply Qabs_case; intros; lra.
Qed.

Lemma round_half (y : Q) : Qabs (y - inject_Z (JS.round y)) <= 1 # 2.
Proof.
  round_bounds y r. apply Qabs_case; intros; lra.
Qed.

Lemma inject_Z_pos (d : Z) : (1 <= d)%Z -> 0 < inject_Z d.
Proof.
  intros H. change 0 with (inject_Z 0). rewrite <- Zlt_Qlt. lia.
Qed.

Section Fraction.

Variable x : Q.

(** Scaling the error by the denominator. *)
Lemma frac_err_scale (n d : Z) :
  (1 <= d)%Z ->
  frac_err x n d * inject_Z d == Qabs (x * inject_Z d - inject_Z n).
Proof.
  intros Hd. pose proof (inject_Z_pos d Hd) as Hq. unfold frac_err.
  rewrite <- (Qabs_pos (inject_Z d)) at 2 by lra.
  rewrite <- Qabs_Qmult. apply Qabs_wd. field. lra.
Qed.

(** Among the fractions of denominator [d] the loop's numerator is the
    best. *)
Lemma nearest_best (n' d : Z) :
  (1 <= d)%Z ->
  frac_err x (JS.round (x * inject_Z d)) d <= frac_err x n' d.
Proof.
  intros Hd. pose proof (inject_Z_pos d Hd) as Hq.
  apply (Qmult_le_r _ _ (inject_Z d) Hq).
  rewrite !frac_err_scale by exact Hd. apply round_nearest.
Qed.

Lemma nearest_half (d : Z) :
  (1 <= d)%Z -> frac_err x (JS.round (x * inject_Z d)) d <= 1 # 2.
Proof.
  intros Hd. pose proof (inject_Z_pos d Hd) as Hq.
  assert (1 <= inject_Z d) as Hq1.
  { change 1 with (inject_Z 1). rewrite <- Zle_Qle. exact Hd. }
  pose proof (frac_err_scale (JS.round (x * inject_Z d)) d Hd) as Hs.
  pose proof (round_half (x * inject_Z d)) as Hh.
  assert (0 <= frac_err x (JS.round (x * inject_Z d)) d) as H0 by apply Qabs_nonneg.
  nra.
Qed.

Lemma approx_loop_S (n : nat) :
  approx_loop x (S n) = approx_step x (approx_loop x n) (Z.of_nat (S n)).
Proof.
  unfold approx_loop. rewrite seq_S, List.map_app, fold_left_app. reflexivity.
Qed.

Lemma approx_loop_inv (n : nat) :
  loop_inv x (Z.of_nat n) (approx_loop x n).
Proof.
  induction n as [| n IH].
  - split; [intros d' Hd'; simpl in Hd'; lia | left; split; reflexivity].
  - rewrite approx_loop_S. set (best := approx_loop x n) in *.
    set (d := Z.of_nat (S n)).
    assert (d = Z.of_nat n + 1)%Z as Hd by lia.
    destruct IH as [IH1 IH2]. unfold approx_step. fold (err_at x d).
    destruct (JS.Qltb (err_at x d) (best_err best)) eqn:E.
    + apply Qltb_lt in E. split; simpl.
      * intros d' Hd'. destruct (Z.eq_dec d' d) as [-> | Hne]; [apply Qle_refl |].
        assert (best_err best <= err_at x d') by (apply IH1; lia). lra.
      * right. repeat split; try lia.
        intros d' Hd'.
        assert (best_err best <= err_at x d') by (apply IH1; lia). lra.
    + apply Qltb_ge in E. destruct IH2 as [[Hk Hb] | (Hb1 & Hb2 & Hb3 & Hb4)].
      * exfalso. rewrite Hb in E. simpl in E.
        assert (d = 1)%Z as Hd1 by lia. rewrite Hd1 in E.
        pose proof (nearest_half 1 ltac:(lia)) as Hh. fold (err_at x 1) in Hh. lra.
      * split.
        -- intros d' Hd'. destruct (Z.eq_dec d' d) as [-> | Hne]; [exact E |].
           apply IH1. lia.
        -- right. repeat split; try lia; assumption.
Qed.

(** The fraction kept by the loop: of minimal error among all fractions
    with a denominator in [1..maxDen], and of the least denominator among
    those of minimal error. *)
Lemma approx_loop_best (maxDen : nat) :
  (1 <= maxDen)%nat ->
  let best := approx_loop x maxDen in
  (1 <= best_d best <= Z.of_nat maxDen)%Z
  /\ forall n' d', (1 <= d' <= Z.of_nat maxDen)%Z ->
       frac_err x (best_n best) (best_d best) <= frac_err x n' d'
       /\ (frac_err x n' d' == frac_err x (best_n best) (best_d best) ->
           (best_d best <= d')%Z).
Proof.
  intros Hm best. destruct (approx_loop_inv maxDen) as [H1 H2]. fold best in H1, H2.
  destruct H2 as [[Hk _] | (Hb1 & Hb2 & Hb3 & Hb4)]; [lia |].
  assert (frac_err x (best_n best) (best_d best) = best_err best) as Herr.
  { rewrite Hb3, Hb2. unfold err_at. rewrite <- Hb2. reflexivity. }
  split; [exact Hb1 |]. intros n' d' Hd'. rewrite Herr.
  pose proof (nearest_best n' d' ltac:(lia)) as Hn. fold (err_at x d') in Hn.
  split.
  - pose proof (H1 d' Hd'). lra.
  - intros Heq. destruct (Z_lt_le_dec d' (best_d best)) as [Hlt | Hle]; [| exact Hle].
    pose proof (Hb4 d' ltac:(lia)). lra.
Qed.

Lemma frac_err_zero (d : Z) : frac_err x 0 d == Qabs x.
Proof. unfold frac_err. apply Qabs_wd. unfold Qdiv. simpl. ring. Qed.

(** Dividing both terms by their greatest common divisor keeps the value
    and does not increase the denominator. *)
Lemma reduce_fraction (n d : Z) :
  (1 <= d)%Z ->
  let g := gcd n d in
  (1 <= g)%Z
  /\ (1 <= d / g <= d)%Z
  /\ frac_err x (n / g) (d / g) == frac_err x n d.
Proof.
  intros Hd g. subst g. rewrite gcd_spec.
  pose proof (Z.gcd_nonneg n d) as Hg0.
  pose proof (Z.gcd_divide_l n d) as Hgn.
  pose proof (Z.gcd_divide_r n d) as Hgd.
  assert (Z.gcd n d <> 0)%Z as Hg1.
  { intros H0. apply Z.gcd_eq_0_r in H0. lia. }
  set (g := Z.gcd n d) in *.
  assert (0 < g)%Z as Hg by lia.
  pose proof (Znumtheory.Zdivide_Zdiv_eq g n Hg Hgn) as En.
  pose proof (Znumtheory.Zdivide_Zdiv_eq g d Hg Hgd) as Ed.
  assert (1 <= d / g <= d)%Z as Hdg by nia.
  split; [lia | split; [exact Hdg |]].
  unfold frac_err. apply Qabs_wd.
  pose proof (inject_Z_pos (d / g) ltac:(lia)) as Hq1.
  pose proof (inject_Z_pos g ltac:(lia)) as Hq2.
  rewrite En at 2. rewrite Ed at 2. rewrite !inject_Z_mult.
  field. split; lra.
Qed.

Lemma approxFraction_positive (maxDen : nat) :
  0 < x -> (1 <= maxDen)%nat ->
  let r := approxFraction (JS.Fin x) maxDen in
  (1 <= snd r <= Z.of_nat maxDen)%Z
  /\ forall n' d', (1 <= d' <= Z.of_nat maxDen)%Z ->
       frac_err x (fst r) (snd r) <= frac_err x n' d'
       /\ (frac_err x n' d' == frac_err x (fst r) (snd r) -> (snd r <= d')%Z).
Proof.
  intros Hx Hm. unfold approxFraction. simpl.
  assert (Qle_bool x 0 = false) as ->.
  { destruct (Qle_bool x 0) eqn:E; [| reflexivity]. apply Qle_bool_iff in E. lra. }
  destruct (approx_loop_best maxDen Hm) as [Hb Hbest].
  set (best := approx_loop x maxDen) in *.
  destruct (Z.eqb_spec (best_n best) 0) as [E0 | Hne]; simpl.
  - split; [lia |]. intros n' d' Hd'.
    destruct (Hbest n' d' Hd') as [H1 H2]. rewrite E0 in H1, H2.
    rewrite frac_err_zero in *. split; [exact H1 | intros _; lia].
  - destruct (reduce_fraction (best_n best) (best_d best) ltac:(lia)) as (Hg & Hd & He).
    split; [lia |]. intros n' d' Hd'.
    destruct (Hbest n' d' Hd') as [H1 H2]. rewrite He.
    split; [exact H1 |]. intros Heq. specialize (H2 Heq). lia.
Qed.

End Fraction.

Lemma approxFraction_guard (v : number) (maxDen : nat) :
  JS.isFinite v = false \/ (v <=? JS.Fin 0)%js = true ->
  approxFraction v maxDen = (0%Z, 1%Z).
Proof.
  intros [H | H]; unfold approxFraction; rewrite H; simpl; [reflexivity |].
  rewrite orb_true_r. reflexivity.
Qed.

(** The denominator returned by [approxFraction] is never 0. *)
Lemma approxFraction_den (v : number) (maxDen : nat) :
  (1 <= snd (approxFraction v maxDen))%Z.
Proof.
  destruct (negb (JS.isFinite v) || (v <=? JS.Fin 0)%js) eqn:E.
  - unfold approxFraction. rewrite E. simpl. lia.
  - unfold approxFraction. rewrite E.
    destruct (Z.eqb_spec (best_n (approx_loop (JS.toQ v) maxDen)) 0); simpl; [lia |].
    assert (1 <= best_d (approx_loop (JS.toQ v) maxDen))%Z as Hd.
    { destruct maxDen as [| m]; [simpl; lia |].
      apply (approx_loop_best (JS.toQ v) (S m)). lia. }
    apply (reduce_fraction 0 _ _ Hd).
Qed.



(** ** Degenerate inputs *)


Lemma degenerate_finite : finite_state degenerate.
Proof. apply session_finite. constructor. Qed.


(** ** Exclusion of employees without a name or without hours *)

(** An employee without a name who worked 8 hours has points and an
    amount in the live table. *)
Lemma unnamed_gets_a_share : ~ excluded_in_table unnamed.
Proof.
  intros H.
  destruct (H (nth 0 (employees unnamed) waiterA)
              (nth 0 (employeeRows unnamed) (restaurantRow unnamed))) as [H1 _].
  - left. reflexivity.
  - left. reflexivity.
  - reflexivity.
  - left. reflexivity.
  - vm_compute in H1. discriminate.
Qed.

Lemma is_valid_iff (e : WithTotal) :
  is_valid e = true <-> wt_name e <> ""%string /\ (totalHours e >? JS.Fin 0)%js = true.
Proof.
  unfold is_valid. rewrite andb_true_iff.
  destruct (wt_name e); simpl; split; intros [H1 H2]; split; congruence.
Qed.

(** C5, amended.  [calculateTips] keeps exactly the employees with a
    name and a total above 0, and only those reach the request.  The
    live table filters nothing: it has one row per employee; in a state
    without infinities an employee without hours in the selected week has
    0 points and an amount of 0 there, while an employee without a name
    is kept and shares like any other. *)
Theorem exclusion_by_layer (st : State) :
  (forall e, In e (validEmployees st)
             <-> In e (employeesWithTotals st)
                 /\ wt_name e <> ""%string
                 /\ (totalHours e >? JS.Fin 0)%js = true)
  /\ (forall body, calculateTips st = Submit body ->
        List.map req_name (req_employees body) = List.map wt_name (validEmployees st))
  /\ List.map (fun r => tot_id (pt_emp (row_emp r))) (employeeRows st)
     = List.map id (employees st)
  /\ (finite_state st ->
      forall p, In p (totalsWithPoints st) ->
        JS.equiv (total (pt_emp p)) (JS.Fin 0) ->
        JS.equiv (points p) (JS.Fin 0)
        /\ JS.equiv (weeklyRounded (employeeRow st p)) (JS.Fin 0)).
Proof.
  split; [| split; [| split]].
  - intros e. unfold validEmployees. rewrite filter_In, is_valid_iff. tauto.
  - intros body Hb. apply (calculateTips_submit st body Hb).
  - unfold employeeRows, totalsWithPoints, employeeTotals.
    rewrite !List.map_map. reflexivity.
  - intros Hst p Hp H0.
    pose proof (points_fin st p (proj1 Hst) Hp) as Hpf.
    destruct (employeeRow_values st p Hst Hpf) as (_ & _ & _ & ->).
    apply In_totalsWithPoints in Hp as (e & _ & _ & _ & Hm & Epts).
    destruct (getMultiplier_spec (tot_type (pt_emp p))) as (m & Em & _).
    rewrite Hm, Em in Epts.
    destruct (total (pt_emp p)) as [| | | t]; simpl in H0; try contradiction.
    rewrite Epts. simpl.
    assert (t * m == 0) as Hz by (rewrite H0; ring).
    split; [exact Hz |].
    assert ((if JS.Qltb 0 (JS.toQ (totalEmployeePoints st))
             then t * m / JS.toQ (totalEmployeePoints st) else 0)
            * (1 - JS.toQ (restaurantShare st)) * JS.toQ (totalTipsValue st) / 5 == 0) as Hr.
    { destruct (JS.Qltb 0 (JS.toQ (totalEmployeePoints st))) eqn:E.
      - apply Qltb_lt in E. rewrite Hz. field. lra.
      - field. }
    rewrite (round_comp _ _ Hr). reflexivity.
Qed.

Lemma exclusion_by_layer_witness :
  validEmployees unnamed = []
  /\ List.map (fun r => tot_id (pt_emp (row_emp r))) (employeeRows unnamed) = ["1"%string]
  /\ (forall p, In p (totalsWithPoints degenerate) ->
        JS.equiv (total (pt_emp p)) (JS.Fin 0) ->
        JS.equiv (points p) (JS.Fin 0)
        /\ JS.equiv (weeklyRounded (employeeRow degenerate p)) (JS.Fin 0)).
Proof.
  split; [reflexivity | split].
  - apply (proj1 (proj2 (proj2 (exclusion_by_layer unnamed)))).
  - apply (proj2 (proj2 (proj2 (exclusion_by_layer degenerate)))).
    exact degenerate_finite.
Defined.


(** * Properties of the rest of the component *)

(** ** The effect that fills the grid *)

Lemma ensureDates_lookup_Some (dates : list Z) (perDay : gmap Z number) d v :
  perDay !! d = Some v -> ensureDates dates perDay !! d = Some v.
Proof.
  unfold ensureDates. revert perDay.
  induction dates as [| a dates IH]; intros perDay Hd; [exact Hd |].
  cbn [fold_left]. apply IH.
  destruct (perDay !! a) eqn:Ea; [exact Hd |].
  rewrite lookup_insert_ne; [exact Hd |]. intros ->. congruence.
Qed.

Lemma ensureDates_lookup_None (dates : list Z) (perDay : gmap Z number) d :
  perDay !! d = None ->
  ensureDates dates perDay !! d
  = if in_dec Z.eq_dec d dates then Some (JS.Fin 0) else None.
Proof.
  unfold ensureDates. revert perDay.
  induction dates as [| a dates IH]; intros perDay Hd; [exact Hd |].
  cbn [fold_left]. fold (ensureDates dates).
  destruct (Z.eq_dec a d) as [-> | Hne].
  - rewrite Hd. rewrite (ensureDates_lookup_Some dates _ d (JS.Fin 0)).
    + destruct (in_dec Z.eq_dec d (d :: dates)) as [_ | Hn]; [reflexivity |].
      exfalso. apply Hn. left. reflexivity.
    + apply lookup_insert_eq.
  - unfold ensureDates. rewrite IH.
    + destruct (in_dec Z.eq_dec d dates) as [Hi | Hn];
        destruct (in_dec Z.eq_dec d (a :: dates)) as [Hi' | Hn']; try reflexivity.
      * exfalso. apply Hn'. right. exact Hi.
      * exfalso. destruct Hi' as [E | Hi']; [congruence | exact (Hn Hi')].
    + destruct (perDay !! a); [exact Hd |]. rewrite lookup_insert_ne; assumption.
Qed.

Lemma ensureDates_idem (dates : list Z) (perDay : gmap Z number) :
  ensureDates dates (ensureDates dates perDay) = ensureDates dates perDay.
Proof.
  apply map_eq. intros d.
  destruct (ensureDates dates perDay !! d) as [v |] eqn:E.
  - apply ensureDates_lookup_Some, E.
  - rewrite ensureDates_lookup_None by exact E.
    destruct (perDay !! d) as [v |] eqn:E'.
    + rewrite (ensureDates_lookup_Some _ _ _ _ E') in E. discriminate.
    + rewrite ensureDates_lookup_None in E by exact E'.
      destruct (in_dec Z.eq_dec d dates); [discriminate | reflexivity].
Qed.

Lemma sync_fold_lookup (dates : list Z) (emps : list Employee)
    (g : gmap string (gmap Z number)) (i : string) :
  fold_left (fun g emp => <[id emp := ensureDates dates (default ∅ (g !! id emp))]> g)
            emps g !! i
  = if in_dec string_dec i (List.map id emps)
    then Some (ensureDates dates (default ∅ (g !! i)))
    else g !! i.
Proof.
  revert g. induction emps as [| e emps IH]; intros g; [reflexivity |].
  cbn [fold_left]. rewrite IH. cbn [List.map].
  destruct (string_dec (id e) i) as [E | Hne].
  - subst i. rewrite lookup_insert_eq.
    change (default ∅ (Some ?x)) with x.
    destruct (in_dec string_dec (id e) (id e :: List.map id emps)) as [_ | Hn];
      [| exfalso; apply Hn; left; reflexivity].
    destruct (in_dec string_dec (id e) (List.map id emps));
      [rewrite ensureDates_idem |]; reflexivity.
  - rewrite lookup_insert_ne by exact Hne.
    destruct (in_dec string_dec i (List.map id emps)) as [Hi | Hn];
      destruct (in_dec string_dec i (id e :: List.map id emps)) as [Hi' | Hn'];
      try reflexivity.
    + exfalso. apply Hn'. right. exact Hi.
    + exfalso. destruct Hi' as [E | Hi']; [congruence | exact (Hn Hi')].
Qed.

Lemma Exists_id_In (emps : list Employee) (i : string) :
  Exists (fun e => id e = i) emps <-> In i (List.map id emps).
Proof.
  rewrite Exists_exists, in_map_iff. split; intros (e & H1 & H2); exists e.
  - apply list_elem_of_In in H1. split; assumption.
  - split; [apply list_elem_of_In |]; assumption.
Qed.

(** The rows of the grid after the effect. *)
Lemma syncGrid_lookup (st : State) (i : string) :
  hoursGrid (syncGrid st) !! i
  = if in_dec string_dec i (ids st)
    then Some (ensureDates (getWeekDates (weekStart st)) (default ∅ (hoursGrid st !! i)))
    else None.
Proof.
  unfold syncGrid, ids. cbn [hoursGrid setHoursGrid].
  pose proof (sync_fold_lookup (getWeekDates (weekStart st)) (employees st)
                (hoursGrid st) i) as Hf.
  destruct (in_dec string_dec i (List.map id (employees st))) as [Hi | Hn].
  - apply map_lookup_filter_Some. split; [exact Hf |].
    cbn. apply Exists_id_In, Hi.
  - apply map_lookup_filter_None. right. intros x _ Hex. cbn in Hex.
    apply Exists_id_In in Hex. exact (Hn Hex).
Qed.

Lemma gridEntry_syncGrid (st : State) (i : string) (d : Z) :
  gridEntry (syncGrid st) i d
  = if in_dec string_dec i (ids st)
    then match gridEntry st i d with
         | Some v => Some v
         | None => if in_dec Z.eq_dec d (getWeekDates (weekStart st))
                   then Some (JS.Fin 0) else None
         end
    else None.
Proof.
  unfold gridEntry at 1. rewrite syncGrid_lookup.
  generalize (getWeekDates (weekStart st)). intros dates.
  destruct (in_dec string_dec i (ids st)); [| reflexivity].
  cbn [mbind option_bind].
  unfold gridEntry. destruct (hoursGrid st !! i) as [perDay |] eqn:E;
    cbn [mbind option_bind default from_option Datatypes.id].
  - destruct (perDay !! d) as [v |] eqn:Ed.
    + apply ensureDates_lookup_Some, Ed.
    + apply ensureDates_lookup_None, Ed.
  - apply ensureDates_lookup_None. apply lookup_empty.
Qed.

(** X1. After the effect the grid has a row for exactly the employees'
    ids, every employee has an entry for every day of the selected week,
    an entry that was there is kept as it was, and an entry that was not
    is a 0 on a day of the selected week. *)
Theorem syncGrid_post (st : State) :
  (forall i, is_Some (hoursGrid (syncGrid st) !! i) <-> In i (ids st))
  /\ (forall i d, In i (ids st) -> In d (getWeekDates (weekStart st)) ->
        is_Some (gridEntry (syncGrid st) i d))
  /\ (forall i d v, In i (ids st) -> gridEntry st i d = Some v ->
        gridEntry (syncGrid st) i d = Some v)
  /\ (forall i d v, gridEntry (syncGrid st) i d = Some v ->
        In i (ids st)
        /\ (gridEntry st i d = Some v
            \/ (gridEntry st i d = None /\ v = JS.Fin 0
                /\ In d (getWeekDates (weekStart st))))).
Proof.
  split; [| split; [| split]].
  - intros i. rewrite syncGrid_lookup.
    destruct (in_dec string_dec i (ids st)) as [Hi | Hn]; split; intros H.
    + exact Hi.
    + eexists. reflexivity.
    + destruct H as [x Hx]. discriminate.
    + contradiction.
  - intros i d Hi Hd. rewrite gridEntry_syncGrid.
    destruct (in_dec string_dec i (ids st)) as [_ | Hn]; [| contradiction].
    destruct (gridEntry st i d); [eexists; reflexivity |].
    destruct (in_dec Z.eq_dec d (getWeekDates (weekStart st))) as [_ | Hn];
      [eexists; reflexivity | contradiction].
  - intros i d v Hi Hv. rewrite gridEntry_syncGrid, Hv.
    destruct (in_dec string_dec i (ids st)); [reflexivity | contradiction].
  - intros i d v. rewrite gridEntry_syncGrid.
    destruct (in_dec string_dec i (ids st)) as [Hi | _]; [| discriminate].
    destruct (gridEntry st i d) as [w |].
    + intros H. injection H as <-. split; [exact Hi | left; reflexivity].
    + destruct (in_dec Z.eq_dec d (getWeekDates (weekStart st))) as [Hd | _];
        [| discriminate].
      intros H. injection H as <-. split; [exact Hi |]. right. repeat split. exact Hd.
Qed.

Lemma syncGrid_post_witness :
  In "1"%string (ids (initial 0)) /\ In 3%Z (getWeekDates (weekStart (initial 0)))
  /\ is_Some (gridEntry (syncGrid (initial 0)) "1" 3).
Proof.
  assert (In "1"%string (ids (initial 0))) as Hi by (left; reflexivity).
  assert (In 3%Z (getWeekDates (weekStart (initial 0)))) as Hd
    by (do 3 right; left; reflexivity).
  split; [exact Hi | split; [exact Hd |]].
  exact (proj1 (proj2 (syncGrid_post (initial 0))) "1"%string 3%Z Hi Hd).
Defined.

Lemma ids_syncGrid (st : State) : ids (syncGrid st) = ids st.
Proof. reflexivity. Qed.

(** X2. Running the effect a second time changes nothing. *)
Theorem syncGrid_idempotent (st : State) : syncGrid (syncGrid st) = syncGrid st.
Proof.
  assert (hoursGrid (syncGrid (syncGrid st)) = hoursGrid (syncGrid st)) as Hg.
  { apply map_eq. intros i. rewrite !syncGrid_lookup, ids_syncGrid.
    change (weekStart (syncGrid st)) with (weekStart st).
    generalize (getWeekDates (weekStart st)). intros dates.
    destruct (in_dec string_dec i (ids st)); [| reflexivity].
    change (default ∅ (Some ?x)) with x. rewrite ensureDates_idem. reflexivity. }
  assert (forall s, syncGrid s = setHoursGrid (hoursGrid (syncGrid s)) s) as Hs
    by reflexivity.
  rewrite (Hs (syncGrid st)), Hg. unfold setHoursGrid.
  destruct (syncGrid st); reflexivity.
Qed.

(** ** What the live table depends on *)

Lemma weekTotal_or0_ext (st st' : State) (i : string) :
  weekStart st = weekStart st' ->
  (forall d, In d (getWeekDates (weekStart st)) ->
     JS.or0 (gridEntry st i d) = JS.or0 (gridEntry st' i d)) ->
  weekTotal st i = weekTotal st' i.
Proof.
  intros Hw. unfold weekTotal. rewrite <- Hw.
  generalize (JS.Fin 0). generalize (getWeekDates (weekStart st)).
  intros dates. induction dates as [| d dates IH]; intros acc Hd; [reflexivity |].
  cbn [fold_left]. rewrite (Hd d) by (left; reflexivity).
  apply IH. intros d' Hd'. apply Hd. right. exact Hd'.
Qed.

(** The table depends on the grid only through the weekly totals of the
    employees. *)
Lemma table_ext (st st' : State) :
  employees st = employees st' ->
  totalTips st = totalTips st' ->
  restaurantShare st = restaurantShare st' ->
  (forall i, In i (ids st) -> weekTotal st i = weekTotal st' i) ->
  finalRows st = finalRows st' /\ render st = render st'.
Proof.
  intros He Ht Hs Hw.
  assert (employeeTotals st = employeeTotals st') as E1.
  { unfold employeeTotals. rewrite <- He. apply map_ext_in. intros e Hin.
    rewrite (Hw (id e)); [reflexivity |]. unfold ids. apply in_map, Hin. }
  assert (totalsWithPoints st = totalsWithPoints st') as E2
    by (unfold totalsWithPoints; rewrite E1; reflexivity).
  assert (totalEmployeePoints st = totalEmployeePoints st') as E3
    by (unfold totalEmployeePoints; rewrite E2; reflexivity).
  assert (totalTipsValue st = totalTipsValue st') as E4
    by (unfold totalTipsValue; rewrite Ht; reflexivity).
  assert (employeeRows st = employeeRows st') as E5.
  { unfold employeeRows. rewrite <- E2. apply map_ext. intros p.
    unfold employeeRow. rewrite E3, E4, Hs. reflexivity. }
  assert (restaurantRow st = restaurantRow st') as E6.
  { unfold restaurantRow, restaurantAmount, sumEmployeesRounded.
    rewrite E4, E5, Hs. reflexivity. }
  assert (finalRows st = finalRows st') as E7
    by (unfold finalRows; rewrite E5, E6; reflexivity).
  split; [exact E7 |].
  unfold render. rewrite <- E7. apply map_ext. intros r.
  unfold propAfter. rewrite E4. reflexivity.
Qed.

(** X3. The effect is invisible in the live table: the zeros it adds and
    the rows it drops change no row and nothing that is rendered. *)
Theorem effect_invisible (st : State) :
  finalRows (syncGrid st) = finalRows st /\ render (syncGrid st) = render st.
Proof.
  apply table_ext; try reflexivity.
  intros i Hi. apply weekTotal_or0_ext; [reflexivity |].
  intros d Hd. rewrite gridEntry_syncGrid.
  change (ids (syncGrid st)) with (ids st) in Hi.
  change (weekStart (syncGrid st)) with (weekStart st) in Hd.
  destruct (in_dec string_dec i (ids st)) as [_ | Hn]; [| contradiction].
  destruct (gridEntry st i d); [reflexivity |].
  destruct (in_dec Z.eq_dec d (getWeekDates (weekStart st))) as [_ | Hn];
    [reflexivity | contradiction].
Qed.

(** ** Typing hours *)

Lemma gridEntry_onHoursChange (st : State) (i i' : string) (d d' : Z) (t : string) :
  gridEntry (onHoursChange i d t st) i' d'
  = if decide (i = i' /\ d = d')
    then Some (JS.parseFloat t || JS.Fin 0)%js
    else gridEntry st i' d'.
Proof.
  unfold gridEntry, onHoursChange, updateHours. cbn [hoursGrid setHoursGrid].
  destruct (decide (i = i')) as [<- | Hi].
  - rewrite lookup_insert_eq. cbn [mbind option_bind].
    destruct (decide (d = d')) as [<- | Hd].
    + rewrite lookup_insert_eq. rewrite decide_True by (split; reflexivity). reflexivity.
    + rewrite lookup_insert_ne by exact Hd.
      rewrite decide_False by (intros [_ E]; exact (Hd E)).
      destruct (hoursGrid st !! i); reflexivity.
  - rewrite lookup_insert_ne by exact Hi.
    rewrite decide_False by (intros [E _]; exact (Hi E)). reflexivity.
Qed.

(** X4. Hours typed in a cell are read back from that cell, every other
    cell is untouched, and what is stored is never [NaN]: a text that does
    not parse is stored as 0. *)
Theorem typed_hours_stored (st : State) (i : string) (d : Z) (t : string) :
  gridEntry (onHoursChange i d t st) i d = Some (JS.parseFloat t || JS.Fin 0)%js
  /\ JS.isNaN (JS.parseFloat t || JS.Fin 0)%js = false
  /\ (JS.parseFloat t = JS.NaN ->
        gridEntry (onHoursChange i d t st) i d = Some (JS.Fin 0))
  /\ (forall i' d', (i', d') <> (i, d) ->
        gridEntry (onHoursChange i d t st) i' d' = gridEntry st i' d').
Proof.
  split; [| split; [| split]].
  - rewrite gridEntry_onHoursChange, decide_True by (split; reflexivity). reflexivity.
  - destruct (JS.parseFloat t); unfold JS.or; simpl; try reflexivity.
    destruct (negb (JS.is_zero q)); reflexivity.
  - intros Hn. rewrite gridEntry_onHoursChange, decide_True by (split; reflexivity).
    rewrite Hn. reflexivity.
  - intros i' d' Hne. rewrite gridEntry_onHoursChange.
    rewrite decide_False; [reflexivity |]. intros [E1 E2]. subst. exact (Hne eq_refl).
Qed.

Lemma typed_hours_stored_witness :
  gridEntry (onHoursChange "1" 2 "x" fresh) "1" 2 = Some (JS.Fin 0)
  /\ gridEntry (onHoursChange "1" 2 "7" fresh) "1" 3 = gridEntry fresh "1" 3.
Proof.
  split.
  - apply (proj1 (proj2 (proj2 (typed_hours_stored fresh "1" 2 "x")))). reflexivity.
  - apply (proj2 (proj2 (proj2 (typed_hours_stored fresh "1" 2 "7")))).
    intros H. discriminate.
Defined.

(** X5. Hours typed under a date outside the selected week, or for
    another employee, leave an employee's weekly total as it was; hours
    typed outside the selected week leave the whole table as it was. *)
Theorem typed_hours_elsewhere (st : State) (i : string) (d : Z) (t : string) :
  (forall j, j <> i \/ ~ In d (getWeekDates (weekStart st)) ->
     weekTotal (onHoursChange i d t st) j = weekTotal st j)
  /\ (~ In d (getWeekDates (weekStart st)) ->
      finalRows (onHoursChange i d t st) = finalRows st
      /\ render (onHoursChange i d t st) = render st).
Proof.
  assert (forall j, j <> i \/ ~ In d (getWeekDates (weekStart st)) ->
            weekTotal (onHoursChange i d t st) j = weekTotal st j) as Hw.
  { intros j Hj. apply weekTotal_week_only; [reflexivity |].
    intros d' Hd'. rewrite gridEntry_onHoursChange.
    rewrite decide_False; [reflexivity |]. intros [-> ->].
    destruct Hj as [Hj | Hj]; [apply Hj; reflexivity | exact (Hj Hd')]. }
  split; [exact Hw |].
  intros Hd. apply table_ext; try reflexivity.
  intros j _. apply Hw. right. exact Hd.
Qed.

Lemma typed_hours_elsewhere_witness :
  weekTotal (onHoursChange "1" 9 "8" fresh) "1" = weekTotal fresh "1"
  /\ finalRows (onHoursChange "1" 9 "8" fresh) = finalRows fresh.
Proof.
  assert (~ In 9%Z (getWeekDates (weekStart fresh))) as Hd.
  { vm_compute. intros H. repeat destruct H as [H | H]; try discriminate. exact H. }
  split.
  - apply (proj1 (typed_hours_elsewhere fresh "1" 9 "8")). right. exact Hd.
  - apply (proj2 (typed_hours_elsewhere fresh "1" 9 "8")). exact Hd.
Defined.

(** ** Sums of rationals *)

Lemma Qsum_ext {A : Type} (f g : A -> Q) (l : list A) :
  (forall x, In x l -> f x == g x) ->
  Qsum (List.map f l) == Qsum (List.map g l).
Proof.
  induction l as [| x l IH]; intros H; simpl; [reflexivity |].
  rewrite (H x) by (left; reflexivity).
  rewrite IH; [reflexivity |]. intros y Hy. apply H. right. exact Hy.
Qed.

Lemma Qsum_plus {A : Type} (f g : A -> Q) (l : list A) :
  Qsum (List.map (fun x => f x + g x) l) == Qsum (List.map f l) + Qsum (List.map g l).
Proof. induction l as [| x l IH]; simpl; [| rewrite IH]; ring. Qed.

Lemma Qsum_zero {A : Type} (l : list A) : Qsum (List.map (fun _ => 0) l) == 0.
Proof. induction l as [| x l IH]; simpl; [| rewrite IH]; ring. Qed.

Lemma Qsum_scale {A : Type} (f : A -> Q) (c : Q) (l : list A) :
  Qsum (List.map (fun x => f x * c) l) == Qsum (List.map f l) * c.
Proof. induction l as [| x l IH]; simpl; [| rewrite IH]; ring. Qed.

(** Summing by rows or by columns gives the same total. *)
Lemma Qsum_swap {A B : Type} (a : A -> B -> Q) (xs : list A) (ys : list B) :
  Qsum (List.map (fun x => Qsum (List.map (fun y => a x y) ys)) xs)
  == Qsum (List.map (fun y => Qsum (List.map (fun x => a x y) xs)) ys).
Proof.
  induction xs as [| x xs IH]; simpl.
  - rewrite Qsum_zero. reflexivity.
  - rewrite IH. rewrite <- Qsum_plus. reflexivity.
Qed.

(** Changing one term of a sum over distinct indices. *)
Lemma Qsum_update (f g : Z -> Q) (l : list Z) (d : Z) :
  NoDup l -> In d l -> (forall x, x <> d -> g x = f x) ->
  Qsum (List.map g l) == Qsum (List.map f l) - f d + g d.
Proof.
  intros Hnd Hin Hfg. induction Hnd as [| x l Hx Hnd IH]; [contradiction |].
  simpl. destruct Hin as [-> | Hin].
  - assert (Qsum (List.map g l) == Qsum (List.map f l)) as ->.
    { apply Qsum_ext. intros y Hy. rewrite Hfg; [reflexivity |].
      intros ->. apply Hx, list_elem_of_In, Hy. }
    ring.
  - rewrite (IH Hin). rewrite (Hfg x).
    + ring.
    + intros ->. apply Hx, list_elem_of_In, Hin.
Qed.

Lemma Forall_bounds_abs {A : Type} (f : A -> Q) (c : Q) (l : list A) :
  (forall x, In x l -> Qabs (f x) <= c) ->
  Qabs (Qsum (List.map f l)) <= inject_Z (Z.of_nat (length l)) * c.
Proof.
  induction l as [| x l IH]; intros H.
  - unfold Qsum. cbn [List.map fold_right length].
    rewrite Qabs_pos by lra. change (inject_Z (Z.of_nat 0)) with 0. lra.
  - cbn [List.map Qsum fold_right length]. fold (Qsum (List.map f l)).
    rewrite Nat2Z.inj_succ. unfold Z.succ. rewrite inject_Z_plus.
    change (inject_Z 1) with 1.
    pose proof (H x ltac:(left; reflexivity)) as Hx.
    assert (Qabs (Qsum (List.map f l)) <= inject_Z (Z.of_nat (length l)) * c) as Hl.
    { apply IH. intros y Hy. apply H. right. exact Hy. }
    pose proof (Qabs_triangle (f x) (Qsum (List.map f l))) as Ht. lra.
Qed.

(** ** The days of a week *)

Lemma getWeekDates_In (start d : Z) :
  In d (getWeekDates start) <-> (start <= d < start + 7)%Z.
Proof. unfold getWeekDates. cbn. lia. Qed.

Lemma getWeekDates_NoDup (start : Z) : NoDup (getWeekDates start).
Proof.
  unfold getWeekDates. cbn.
  repeat (constructor; [rewrite list_elem_of_In; cbn; lia |]). constructor.
Qed.

(** ** The totals in exact arithmetic *)

Lemma or0_entry_fin (st : State) (i : string) (d : Z) :
  grid_all not_inf st -> fin (JS.or0 (gridEntry st i d)).
Proof.
  intros Hg. apply or0_fin. intros v Hv. exact (grid_all_entry _ _ _ _ _ Hg Hv).
Qed.

Lemma weekTotal_value (st : State) (i : string) :
  grid_all not_inf st ->
  JS.toQ (weekTotal st i)
  == Qsum (List.map (fun d => JS.toQ (JS.or0 (gridEntry st i d)))
                    (getWeekDates (weekStart st))).
Proof.
  intros Hg. unfold weekTotal.
  destruct (fold_add_fin (fun d => JS.or0 (gridEntry st i d))
              (getWeekDates (weekStart st)) (JS.Fin 0)) as [_ H].
  - reflexivity.
  - intros d _. apply or0_entry_fin, Hg.
  - rewrite H. simpl. unfold Qsum. ring.
Qed.

Lemma colTotal_value (st : State) (d : Z) :
  grid_all not_inf st ->
  fin (colTotal st d)
  /\ JS.toQ (colTotal st d)
     == Qsum (List.map (fun e => JS.toQ (JS.or0 (gridEntry st (id e) d))) (employees st)).
Proof.
  intros Hg. unfold colTotal.
  destruct (fold_add_fin (fun e => JS.or0 (gridEntry st (id e) d))
              (employees st) (JS.Fin 0)) as [Hf H].
  - reflexivity.
  - intros e _. apply or0_entry_fin, Hg.
  - split; [exact Hf |]. rewrite H. simpl. unfold Qsum. ring.
Qed.


Lemma fresh_finite : finite_state fresh.
Proof. apply session_finite. repeat constructor. Qed.




(** ** Proportions and amounts of the live table *)

Section TableValues.

Variable st : State.
Hypothesis Hst : finite_state st.

Let T := JS.toQ (totalEmployeePoints st).
Let s := JS.toQ (restaurantShare st).
Let P := JS.toQ (totalTipsValue st).

(** The raw proportion of an employee with [q] points. *)
Let rp (q : Q) : Q := if JS.Qltb 0 T then q / T else 0.

Lemma totalEmployeePoints_value :
  T == Qsum (List.map (fun p => JS.toQ (points p)) (totalsWithPoints st)).
Proof.
  subst T. unfold totalEmployeePoints.
  destruct (fold_add_fin points (totalsWithPoints st) (JS.Fin 0)) as [_ H].
  - reflexivity.
  - intros p Hp. exact (points_fin st p (proj1 Hst) Hp).
  - rewrite H. simpl. unfold Qsum. ring.
Qed.

Lemma row_values (p : Pointed) :
  In p (totalsWithPoints st) ->
  JS.toQ (rawPropPoints (employeeRow st p)) = rp (JS.toQ (points p))
  /\ JS.toQ (prop (employeeRow st p)) = rp (JS.toQ (points p)) * (1 - s)
  /\ JS.toQ (weeklyRaw (employeeRow st p)) = rp (JS.toQ (points p)) * (1 - s) * P
  /\ JS.toQ (weeklyRounded (employeeRow st p))
     = inject_Z (JS.round (rp (JS.toQ (points p)) * (1 - s) * P / 5)) * 5.
Proof.
  intros Hp. pose proof (points_fin st p (proj1 Hst) Hp) as Hf.
  destruct (employeeRow_values st p Hst Hf) as (E1 & E2 & E3 & E4).
  rewrite E1, E2, E3, E4. repeat split.
Qed.

Lemma sum_rp : 0 < T ->
  Qsum (List.map (fun p => rp (JS.toQ (points p))) (totalsWithPoints st)) == 1.
Proof.
  intros HT. subst rp. cbv beta.
  assert (JS.Qltb 0 T = true) as -> by (apply Qltb_lt, HT).
  unfold Qdiv. rewrite Qsum_scale. rewrite <- totalEmployeePoints_value.
  field. lra.
Qed.

Lemma sum_raw : 0 < T ->
  Qsum (List.map (fun p => JS.toQ (weeklyRaw (employeeRow st p))) (totalsWithPoints st))
  == (1 - s) * P.
Proof.
  intros HT.
  rewrite (Qsum_ext _ (fun p => rp (JS.toQ (points p)) * ((1 - s) * P))).
  - rewrite Qsum_scale, (sum_rp HT). ring.
  - intros p Hp. destruct (row_values p Hp) as (_ & _ & -> & _). ring.
Qed.

Lemma sumEmployeesRounded_value :
  JS.toQ (sumEmployeesRounded st)
  == Qsum (List.map (fun p => JS.toQ (weeklyRounded (employeeRow st p)))
                    (totalsWithPoints st)).
Proof.
  unfold sumEmployeesRounded, employeeRows.
  destruct (fold_add_fin weeklyRounded (List.map (employeeRow st) (totalsWithPoints st))
              (JS.Fin 0)) as [_ H].
  - reflexivity.
  - intros r Hr. apply (employeeRows_fin st r Hst Hr).
  - rewrite H, List.map_map. simpl. unfold Qsum. ring.
Qed.

Lemma restaurantAmount_value :
  JS.toQ (restaurantAmount st) == P - JS.toQ (sumEmployeesRounded st).
Proof.
  unfold restaurantAmount. subst P.
  pose proof (sumEmployeesRounded_fin st Hst) as HS.
  pose proof (totalTipsValue_fin st (proj2 (proj2 Hst))) as HP.
  rewrite (fin_toQ _ HS), (fin_toQ _ HP). simpl. ring.
Qed.

Lemma rounding_error (p : Pointed) :
  In p (totalsWithPoints st) ->
  Qabs (JS.toQ (weeklyRaw (employeeRow st p)) - JS.toQ (weeklyRounded (employeeRow st p)))
  <= 5 # 2.
Proof.
  intros Hp. destruct (row_values p Hp) as (_ & _ & -> & ->).
  set (raw := rp (JS.toQ (points p)) * (1 - s) * P).
  pose proof (round_half (raw / 5)) as Hh.
  assert (raw - inject_Z (JS.round (raw / 5)) * 5
          == (raw / 5 - inject_Z (JS.round (raw / 5))) * 5) as -> by field.
  rewrite Qabs_Qmult. rewrite (Qabs_pos 5) by lra. lra.
Qed.

End TableValues.


Lemma scenario_finite : finite_state scenario.
Proof. exact (valid_input_finite scenario scenario_valid). Qed.

Lemma scenario_points_pos : 0 < JS.toQ (totalEmployeePoints scenario).
Proof. vm_compute. reflexivity. Qed.






(** X11. In a state without infinities where the employees' points do
    not add up to more than 0 (no hours typed, for instance), every
    employee's amount is 0 and the restaurant's amount is the whole pool. *)
Theorem no_points_all_to_restaurant (st : State) :
  finite_state st ->
  JS.toQ (totalEmployeePoints st) <= 0 ->
  (forall r, In r (employeeRows st) -> JS.equiv (weeklyRounded r) (JS.Fin 0))
  /\ JS.equiv (weeklyRounded (restaurantRow st)) (totalTipsValue st).
Proof.
  intros Hst HT.
  assert (forall p, In p (totalsWithPoints st) ->
            JS.toQ (weeklyRounded (employeeRow st p)) == 0) as Hz.
  { intros p Hp. destruct (row_values st Hst p Hp) as (_ & _ & _ & ->).
    assert (JS.Qltb 0 (JS.toQ (totalEmployeePoints st)) = false) as ->
      by (apply Qltb_ge, HT).
    rewrite (round_comp _ 0) by field. reflexivity. }
  split.
  - intros r Hr. pose proof (employeeRows_fin st r Hst Hr) as (_ & _ & _ & Hf).
    unfold employeeRows in Hr. apply in_map_iff in Hr as (p & <- & Hp).
    rewrite (fin_toQ _ Hf). simpl. apply Hz, Hp.
  - cbn [restaurantRow weeklyRounded].
    pose proof (totalTipsValue_fin st (proj2 (proj2 Hst))) as HP.
    assert (fin (restaurantAmount st)) as HR
      by (apply fin_sub; [exact HP | apply sumEmployeesRounded_fin, Hst]).
    rewrite (fin_toQ _ HR), (fin_toQ _ HP). simpl.
    rewrite (restaurantAmount_value st Hst), (sumEmployeesRounded_value st Hst).
    rewrite (Qsum_ext _ (fun _ => 0)) by exact Hz.
    rewrite Qsum_zero. ring.
Qed.

Lemma degenerate_no_points : JS.toQ (totalEmployeePoints degenerate) <= 0.
Proof. vm_compute. discriminate. Qed.

Lemma no_points_all_to_restaurant_witness :
  (forall r, In r (employeeRows degenerate) -> JS.equiv (weeklyRounded r) (JS.Fin 0))
  /\ JS.equiv (weeklyRounded (restaurantRow degenerate)) (totalTipsValue degenerate).
Proof.
  apply (no_points_all_to_restaurant degenerate degenerate_finite degenerate_no_points).
Defined.

Lemma round_mono (x y : Q) : x <= y -> (JS.round x <= JS.round y)%Z.
Proof. intros H. unfold JS.round. apply Qfloor_resp_le. lra. Qed.





(** ** More on the fraction display helper *)

(** X14. The loop of [gcd] computes the greatest common divisor of any
    two integers, zero and negative ones included: the result is not
    negative, divides both, and is divided by every common divisor. *)
Theorem gcd_greatest (a b : Z) :
  (0 <= gcd a b)%Z
  /\ (gcd a b | a)%Z
  /\ (gcd a b | b)%Z
  /\ (forall c, (c | a)%Z -> (c | b)%Z -> (c | gcd a b)%Z)
  /\ gcd a 0 = Z.abs a.
Proof.
  rewrite !gcd_spec. split; [apply Z.gcd_nonneg |].
  split; [apply Z.gcd_divide_l |]. split; [apply Z.gcd_divide_r |].
  split; [intros c; apply Z.gcd_greatest | apply Z.gcd_0_r].
Qed.

Lemma gcd_greatest_witness : (3 | 12)%Z /\ (3 | -18)%Z /\ (3 | gcd 12 (-18))%Z.
Proof.
  assert (3 | 12)%Z as Ha by (exists 4%Z; reflexivity).
  assert (3 | -18)%Z as Hb by (exists (-6)%Z; reflexivity).
  split; [exact Ha | split; [exact Hb |]].
  exact (proj1 (proj2 (proj2 (proj2 (gcd_greatest 12 (-18))))) 3%Z Ha Hb).
Defined.

Lemma approx_loop_numerator (x : Q) (maxDen : nat) :
  0 < x -> (0 <= best_n (approx_loop x maxDen))%Z.
Proof.
  intros Hx. destruct (approx_loop_inv x maxDen) as [_ [[_ ->] | (Hd & -> & _)]];
    [simpl; lia |].
  unfold JS.round. change 0%Z with (Qfloor 0). apply Qfloor_resp_le.
  pose proof (inject_Z_pos _ (proj1 Hd)). nra.
Qed.

Lemma approxFraction_coprime (v : number) (maxDen : nat) :
  (0 <= fst (approxFraction v maxDen))%Z
  /\ (1 <= snd (approxFraction v maxDen))%Z
  /\ Z.gcd (fst (approxFraction v maxDen)) (snd (approxFraction v maxDen)) = 1%Z.
Proof.
  split; [| split; [apply approxFraction_den |]].
  - unfold approxFraction.
    destruct (negb (JS.isFinite v) || (v <=? JS.Fin 0)%js) eqn:E; [simpl; lia |].
    destruct (Z.eqb_spec (best_n (approx_loop (JS.toQ v) maxDen)) 0); [simpl; lia |].
    cbn [fst]. apply orb_false_iff in E as [E1 E2].
    destruct v as [| | | x]; try discriminate. simpl in E2 |- *.
    assert (0 < x) as Hx.
    { destruct (Qlt_le_dec 0 x) as [H | H]; [exact H |].
      apply Qle_bool_iff in H. congruence. }
    apply Z.div_pos; [apply approx_loop_numerator, Hx |].
    rewrite gcd_spec.
    pose proof (Z.gcd_nonneg (best_n (approx_loop x maxDen)) (best_d (approx_loop x maxDen))).
    assert (Z.gcd (best_n (approx_loop x maxDen)) (best_d (approx_loop x maxDen)) <> 0)%Z.
    { intros H0. apply Z.gcd_eq_0_l in H0. contradiction. }
    lia.
  - unfold approxFraction.
    destruct (negb (JS.isFinite v) || (v <=? JS.Fin 0)%js); [reflexivity |].
    destruct (Z.eqb_spec (best_n (approx_loop (JS.toQ v) maxDen)) 0) as [_ | Hn];
      [reflexivity |].
    cbn [fst snd]. apply Z.gcd_div_gcd; [| apply gcd_spec].
    rewrite gcd_spec. intros H0. apply Z.gcd_eq_0_l in H0. contradiction.
Qed.

(** X15. Whatever the input, the fraction returned by [approxFraction]
    is in lowest terms, with a numerator that is not negative and a
    denominator of at least 1. *)
Theorem approxFraction_lowest_terms (v : number) (maxDen : nat) :
  (0 <= fst (approxFraction v maxDen))%Z
  /\ (1 <= snd (approxFraction v maxDen))%Z
  /\ Z.gcd (fst (approxFraction v maxDen)) (snd (approxFraction v maxDen)) = 1%Z.
Proof. apply approxFraction_coprime. Qed.



Lemma reduced_unique (p q n d : Z) :
  (1 <= q)%Z -> (1 <= d)%Z -> Z.gcd n d = 1%Z -> (p * d = n * q)%Z ->
  n = (p / Z.gcd p q)%Z /\ d = (q / Z.gcd p q)%Z.
Proof.
  intros Hq Hd Hg E.
  assert (d | q)%Z as [k Hk].
  { apply (Z.gauss d n q); [| rewrite Z.gcd_comm; exact Hg].
    exists p. lia. }
  assert (0 < k)%Z as Hk0 by nia.
  assert (p = n * k)%Z as Hp by nia.
  assert (Z.gcd p q = k) as ->.
  { rewrite Hp, Hk, (Z.mul_comm k d), Z.gcd_mul_mono_r, Hg. lia. }
  subst p q. rewrite (Z.mul_comm k d), !Z.div_mul by lia. split; reflexivity.
Qed.



(** ** More on [calculateTips] *)

(** X18. [calculateTips] checks the pool first: the message about the
    amount is given exactly when the pool text is empty or parses to a
    number that is at most 0, whatever the employees are, and the message
    about the employees exactly when the pool passes and no employee has
    both a name and hours. *)
Theorem calculateTips_messages (st : State) :
  (calculateTips st = InvalidInput "Please enter a valid total tips amount"
   <-> totalTips st = ""%string
       \/ (JS.parseFloat (totalTips st) <=? JS.Fin 0)%js = true)
  /\ (calculateTips st
      = InvalidInput "Please add at least one employee with hours worked"
      <-> totalTips st <> ""%string
          /\ (JS.parseFloat (totalTips st) <=? JS.Fin 0)%js = false
          /\ validEmployees st = []).
Proof.
  unfold calculateTips.
  destruct (totalTips st) as [| c t] eqn:Et; cbn [str_truthy negb orb].
  - intuition (try discriminate; try congruence).
  - destruct (JS.le _ _) eqn:Ele.
    + intuition (try discriminate; try congruence).
    + destruct (validEmployees st) as [| e l] eqn:Ev; cbn [length Nat.eqb];
        intuition (try discriminate; try congruence).
Qed.

(** X19. A request that is sent never has an empty list of employees,
    never an employee without a name or with hours that are not above 0,
    and never a pool that is at most 0; its employees are those of the
    form, in the same order, with some left out. *)
Theorem request_well_formed (st : State) (body : Request) :
  calculateTips st = Submit body ->
  req_employees body <> []
  /\ Forall (fun e => req_name e <> ""%string /\ (req_hours e >? JS.Fin 0)%js = true)
            (req_employees body)
  /\ (total_tips body <=? JS.Fin 0)%js = false
  /\ sublist (List.map req_name (req_employees body)) (List.map name (employees st)).
Proof.
  unfold calculateTips.
  destruct (negb (str_truthy (totalTips st))) eqn:E1; [discriminate |].
  destruct (JS.le (JS.parseFloat (totalTips st)) (JS.Fin 0)) eqn:E2; [discriminate |].
  cbn [orb].
  destruct (length (validEmployees st) =? 0)%nat eqn:El; [discriminate |].
  intros H. injection H as <-. cbn [req_employees total_tips].
  apply Nat.eqb_neq in El.
  split; [| split; [| split; [exact E2 |]]].
  - intros H0. apply El. apply (f_equal (@length _)) in H0.
    rewrite length_map in H0. exact H0.
  - apply Forall_forall. intros x Hx.
    apply list_elem_of_In, in_map_iff in Hx as (w & <- & Hw). cbn.
    unfold validEmployees in Hw. apply filter_In in Hw as [_ Hw].
    apply is_valid_iff, Hw.
  - rewrite List.map_map. cbn.
    unfold validEmployees, employeesWithTotals.
    generalize (employees st). intros emps.
    induction emps as [| x emps IH]; cbn [List.map List.filter]; [constructor |].
    destruct (is_valid _); cbn [List.map wt_name].
    + apply sublist_skip, IH.
    + apply sublist_cons, IH.
Qed.

Lemma request_well_formed_witness :
  exists body, calculateTips two_weeks = Submit body
    /\ req_employees body <> []
    /\ (total_tips body <=? JS.Fin 0)%js = false.
Proof.
  eexists. split; [vm_compute; reflexivity |].
  split; [| apply (request_well_formed two_weeks _ eq_refl)].
  apply (request_well_formed two_weeks _ eq_refl).
Defined.

(** ** The week shown first *)


(** ** Ids as text *)

Lemma digit_cases (d : Z) :
  (0 <= d <= 9)%Z ->
  d = 0%Z \/ d = 1%Z \/ d = 2%Z \/ d = 3%Z \/ d = 4%Z \/ d = 5%Z \/ d = 6%Z
  \/ d = 7%Z \/ d = 8%Z \/ d = 9%Z.
Proof. lia. Qed.

Ltac each_digit H :=
  apply digit_cases in H;
  repeat (destruct H as [H | H]; [subst |]); [.. | subst].

Lemma digit_val_char (d : Z) :
  (0 <= d <= 9)%Z -> digit_val (digit_char d) = Some d.
Proof. intros H. each_digit H; reflexivity. Qed.

(** Reading back the digits written by [digits_of]. *)
Lemma digits_of_read (fuel : nat) (n : Z) (rest : string) (c : Z) :
  (0 <= n)%Z -> (Z.to_nat n < fuel)%nat ->
  exists k, digits_radix 10 (digits_of fuel n rest) 0 c = digits_radix 10 rest n (c + k).
Proof.
  revert n rest c. induction fuel as [| fuel IH]; intros n rest c Hn Hf; [lia |].
  cbn [digits_of].
  pose proof (Z.mod_pos_bound n 10 ltac:(lia)) as Hm.
  pose proof (Z.div_mod n 10 ltac:(lia)) as Hdm.
  destruct (Z.eqb_spec (n / 10) 0) as [E | E].
  - exists 1%Z. cbn [digits_radix]. rewrite digit_val_char by lia.
    assert ((n mod 10 <? 10)%Z = true) as -> by (apply Z.ltb_lt; lia).
    f_equal. lia.
  - assert (0 < n / 10 < n)%Z as Hq by (Z.div_mod_to_equations; lia).
    destruct (IH (n / 10)%Z (String (digit_char (n mod 10)) rest) c) as [k Hk]; try lia.
    exists (k + 1)%Z. rewrite Hk. cbn [digits_radix]. rewrite digit_val_char by lia.
    assert ((n mod 10 <? 10)%Z = true) as -> by (apply Z.ltb_lt; lia).
    f_equal; lia.
Qed.

(** The text written by [digits_of] starts with a digit, followed by
    [rest] or by another digit. *)
Lemma digits_of_shape (fuel : nat) (n : Z) (rest : string) :
  (0 <= n)%Z -> (0 < fuel)%nat ->
  exists d s', (0 <= d <= 9)%Z
    /\ digits_of fuel n rest = String (digit_char d) s'
    /\ (s' = rest \/ exists d' s'', (0 <= d' <= 9)%Z /\ s' = String (digit_char d') s'').
Proof.
  revert n rest. induction fuel as [| fuel IH]; intros n rest Hn Hf; [lia |].
  cbn [digits_of].
  pose proof (Z.mod_pos_bound n 10 ltac:(lia)) as Hm.
  destruct (Z.eqb_spec (n / 10) 0) as [E | E].
  - exists (n mod 10)%Z, rest. split; [lia | split; [reflexivity | left; reflexivity]].
  - destruct fuel as [| fuel'].
    + cbn [digits_of]. exists (n mod 10)%Z, rest.
      split; [lia | split; [reflexivity | left; reflexivity]].
    + destruct (IH (n / 10)%Z (String (digit_char (n mod 10)) rest)) as (d & s' & Hd & Es & Hs');
        [Z.div_mod_to_equations; lia | lia |].
      exists d, s'. split; [exact Hd | split; [exact Es |]].
      destruct Hs' as [-> | Hs']; [| right; exact Hs'].
      right. exists (n mod 10)%Z, rest. split; [lia | reflexivity].
Qed.

Lemma digits_radix_count (radix : Z) (s : string) (a c : Z) :
  (0 < c)%Z -> (0 < snd (digits_radix radix s a c))%Z.
Proof.
  revert a c. induction s as [| ch s IHs]; intros a c Hc; cbn [digits_radix];
    [exact Hc |].
  destruct (digit_val ch) as [d |]; [| exact Hc].
  destruct (d <? radix)%Z; [apply IHs; lia | exact Hc].
Qed.

(** [parseInt] reads back what [toString] writes for an integer that is
    not negative. *)
Lemma parseInt_toString (n : Z) :
  (0 <= n)%Z -> parseInt (toString (Some n)) = Some n.
Proof.
  intros Hn. unfold toString.
  assert ((n <? 0)%Z = false) as -> by (apply Z.ltb_ge; lia).
  destruct (digits_of_read (S (Z.to_nat n)) n "" 0 Hn ltac:(lia)) as [k Hk].
  destruct (digits_of_shape (S (Z.to_nat n)) n "" Hn ltac:(lia))
    as (d & s' & Hd & Es & Hs').
  assert (exists k', (0 < k')%Z /\ digits_radix 10 (String (digit_char d) s') 0 0 = (n, k'))
    as (k' & Hk0 & Hk').
  { rewrite <- Es, Hk. cbn [digits_radix]. exists (0 + k)%Z. split; [| reflexivity].
    rewrite Es in Hk.
    pose proof (digits_radix_count 10 (String (digit_char d) s') 0 0) as Hp.
    cbn [digits_radix] in Hp, Hk. rewrite digit_val_char in Hp, Hk by lia.
    assert ((d <? 10)%Z = true) as Hlt by (apply Z.ltb_lt; lia).
    rewrite Hlt in Hp, Hk.
    pose proof (digits_radix_count 10 s' (10 * 0 + d)%Z (0 + 1)%Z ltac:(lia)) as Hq.
    rewrite Hk in Hq. cbn [digits_radix snd] in Hq. exact Hq. }
  rewrite Es. unfold parseInt.
  assert (JS.read_sign (JS.trimStart (String (digit_char d) s'))
          = (false, String (digit_char d) s')) as ->.
  { each_digit Hd; reflexivity. }
  assert (match String (digit_char d) s' with
          | String "0" (String "x" r) => (16%Z, r)
          | String "0" (String "X" r) => (16%Z, r)
          | _ => (10%Z, String (digit_char d) s')
          end = (10%Z, String (digit_char d) s')) as ->.
  { destruct Hs' as [-> | (d' & s'' & Hd' & ->)].
    - each_digit Hd; reflexivity.
    - each_digit Hd; try reflexivity. each_digit Hd'; reflexivity. }
  rewrite Hk'. assert ((k' =? 0)%Z = false) as -> by (apply Z.eqb_neq; lia).
  reflexivity.
Qed.

(** ** Adding and removing employees *)

Lemma maxId_numeric (l : list string) :
  Forall numeric l ->
  exists m, maxId l = Some m /\ (0 <= m)%Z
            /\ forall i, In i l -> exists k, parseInt i = Some k /\ (k <= m)%Z.
Proof.
  induction 1 as [| i l Hi _ IH].
  - exists 0%Z. split; [reflexivity | split; [lia | intros i []]].
  - destruct IH as (m & Em & Hm & Hall). unfold numeric in Hi.
    destruct (parseInt i) as [k |] eqn:Ek; [| contradiction].
    exists (Z.max k m). cbn [maxId fold_right]. fold (maxId l). rewrite Ek, Em.
    split; [reflexivity | split; [lia |]].
    intros j [<- | Hj].
    + exists k. split; [exact Ek | lia].
    + destruct (Hall j Hj) as (k' & Ek' & Hk'). exists k'. split; [exact Ek' | lia].
Qed.

(** With numeric ids the new id is numeric and differs from all of them. *)
Lemma nextId_fresh (st : State) :
  Forall numeric (ids st) -> numeric (nextId st) /\ ~ In (nextId st) (ids st).
Proof.
  intros Hnum. destruct (maxId_numeric _ Hnum) as (m & Em & Hm & Hall).
  unfold nextId. fold (ids st). rewrite Em. cbn [option_map].
  pose proof (parseInt_toString (m + 1) ltac:(lia)) as Hp.
  split.
  - unfold numeric. rewrite Hp. discriminate.
  - intros Hin. destruct (Hall _ Hin) as (k & Ek & Hk).
    rewrite Hp in Ek. injection Ek as <-. lia.
Qed.

Lemma ids_filter_sub (i : string) (emps : list Employee) :
  List.map id (List.filter (fun e => negb (id e =? i)%string) emps)
  = List.filter (fun j => negb (j =? i)%string) (List.map id emps).
Proof.
  induction emps as [| e emps IH]; [reflexivity |].
  cbn [List.filter List.map]. destruct (negb (id e =? i)%string);
    cbn [List.map]; rewrite IH; reflexivity.
Qed.

Lemma filter_NoDup_length (i : string) (l : list string) :
  NoDup l ->
  NoDup (List.filter (fun j => negb (j =? i)%string) l)
  /\ (length l <= S (length (List.filter (fun j => negb (j =? i)%string) l)))%nat
  /\ (In i l ->
      length l = S (length (List.filter (fun j => negb (j =? i)%string) l))).
Proof.
  induction 1 as [| j l Hj Hnd IH].
  - split; [constructor | split; [cbn; lia | intros []]].
  - destruct IH as (IH1 & IH2 & IH3). cbn [List.filter].
    destruct (String.eqb_spec j i) as [-> | Hne]; cbn [negb].
    + assert (List.filter (fun j => negb (j =? i)%string) l = l) as ->.
      { apply forallb_filter_id. apply forallb_forall. intros x Hx.
        destruct (String.eqb_spec x i) as [-> | _]; [| reflexivity].
        exfalso. apply Hj, list_elem_of_In, Hx. }
      split; [exact Hnd | split; [cbn; lia | intros _; reflexivity]].
    + split; [| split].
      * constructor; [| exact IH1]. rewrite list_elem_of_In, filter_In.
        intros [Hin _]. apply Hj, list_elem_of_In, Hin.
      * cbn [length]. lia.
      * intros [E | Hin]; [congruence |]. cbn [length]. rewrite (IH3 Hin). reflexivity.
Qed.

Lemma syncGrid_synced (st : State) (i : string) (d : Z) :
  In i (ids st) -> In d (getWeekDates (weekStart st)) ->
  is_Some (gridEntry (syncGrid st) i d).
Proof.
  intros Hi Hd. rewrite gridEntry_syncGrid.
  destruct (in_dec string_dec i (ids st)) as [_ | Hn]; [| contradiction].
  destruct (gridEntry st i d); [eexists; reflexivity |].
  destruct (in_dec Z.eq_dec d (getWeekDates (weekStart st))) as [_ | Hn];
    [eexists; reflexivity | contradiction].
Qed.

(** A state whose employees are in order stays so after the effect,
    whatever the grid was. *)
Lemma syncGrid_well_formed (st : State) :
  employees st <> [] -> NoDup (ids st) -> Forall numeric (ids st) ->
  well_formed (syncGrid st).
Proof.
  intros H1 H2 H3. split; [exact H1 | split; [exact H2 | split; [exact H3 |]]].
  intros i d Hi Hd. exact (syncGrid_synced st i d Hi Hd).
Qed.

Lemma ids_updateEmployee (i : string) (field : Field) (value : string) (st : State) :
  ids (updateEmployee i field value st) = ids st.
Proof.
  unfold ids, updateEmployee. cbn [employees syncGrid setHoursGrid setEmployees].
  rewrite List.map_map. apply map_ext. intros e.
  destruct (id e =? i)%string; [destruct field |]; reflexivity.
Qed.

Lemma mapFetched_lookup (data : list Fetched) (k : nat) :
  mapFetched data !! k
  = (fun d => mkEmployee (toString (Some (Z.of_nat k + 1)%Z))
                         (str_or (f_name d) "") (JS.Fin 0)
                         (Some (str_or (f_role d) "waiter")))
    <$> data !! k.
Proof. unfold mapFetched. apply list_lookup_imap. Qed.

Lemma mapFetched_id (data : list Fetched) (k : nat) (e : Employee) :
  mapFetched data !! k = Some e -> parseInt (id e) = Some (Z.of_nat k + 1)%Z.
Proof.
  rewrite mapFetched_lookup. destruct (data !! k); cbn; [| discriminate].
  intros H. injection H as <-. cbn [id]. apply parseInt_toString. lia.
Qed.

Lemma mapFetched_ids (data : list Fetched) :
  length (mapFetched data) = length data
  /\ NoDup (List.map id (mapFetched data))
  /\ Forall numeric (List.map id (mapFetched data)).
Proof.
  split; [apply length_imap | split].
  - apply NoDup_alt. intros k1 k2 i H1 H2.
    rewrite list_lookup_fmap in H1, H2.
    destruct (mapFetched data !! k1) as [e1 |] eqn:E1; [| discriminate].
    destruct (mapFetched data !! k2) as [e2 |] eqn:E2; [| discriminate].
    cbn in H1, H2. injection H1 as <-. injection H2 as H2.
    apply mapFetched_id in E1, E2. rewrite H2 in E2. rewrite E1 in E2.
    injection E2 as E2. lia.
  - apply Forall_forall. intros i Hi. apply list_elem_of_lookup in Hi as [k Hk].
    rewrite list_lookup_fmap in Hk.
    destruct (mapFetched data !! k) as [e |] eqn:E; [| discriminate].
    cbn in Hk. injection Hk as <-. unfold numeric.
    rewrite (mapFetched_id _ _ _ E). discriminate.
Qed.

Lemma act_well_formed (st : State) (a : Action) :
  well_formed st -> well_formed (act st a).
Proof.
  intros (H1 & H2 & H3 & H4).
  destruct a as [[value | i d value | value | start | i field value] | | i | data];
    cbn [act handle].
  - repeat split; assumption.
  - repeat split; try assumption. intros j d' Hj Hd'.
    rewrite gridEntry_onHoursChange.
    destruct (decide (i = j /\ d = d')); [eexists; reflexivity |].
    exact (H4 j d' Hj Hd').
  - unfold onRestaurantShareChange. destruct (negb _); repeat split; assumption.
  - apply syncGrid_well_formed; assumption.
  - pose proof (ids_updateEmployee i field value st) as Hids.
    unfold updateEmployee in *. apply syncGrid_well_formed.
    + cbn [employees setEmployees]. destruct (employees st); [contradiction | discriminate].
    + change (ids (syncGrid ?s)) with (ids s) in Hids. rewrite Hids. exact H2.
    + change (ids (syncGrid ?s)) with (ids s) in Hids. rewrite Hids. exact H3.
  - destruct (nextId_fresh st H3) as [Hn Hf].
    unfold addEmployee. apply syncGrid_well_formed.
    + cbn [employees setEmployees setHoursGrid]. destruct (employees st); discriminate.
    + unfold ids. cbn [employees setEmployees setHoursGrid].
      rewrite List.map_app. cbn [List.map id]. apply NoDup_app. split; [exact H2 |].
      split; [| apply NoDup_singleton].
      intros x Hx Hx'. apply list_elem_of_In in Hx. apply list_elem_of_In in Hx'.
      destruct Hx' as [<- | []]. exact (Hf Hx).
    + unfold ids. cbn [employees setEmployees setHoursGrid].
      rewrite List.map_app. cbn [List.map id]. apply Forall_app. split; [exact H3 |].
      constructor; [exact Hn | constructor].
  - unfold removeEmployee.
    destruct (1 <? length (employees st))%nat eqn:El; [| repeat split; assumption].
    apply Nat.ltb_lt in El.
    destruct (filter_NoDup_length i (ids st) H2) as (Hnd & Hlen & _).
    apply syncGrid_well_formed.
    + cbn [employees setEmployees setHoursGrid]. intros E.
      apply (f_equal (fun l => length (List.map id l))) in E. cbv beta in E.
      rewrite ids_filter_sub in E. fold (ids st) in E. cbn [List.map length] in E.
      assert (length (ids st) = length (employees st)) as Hl
        by (unfold ids; apply length_map).
      lia.
    + unfold ids. cbn [employees setEmployees setHoursGrid].
      rewrite ids_filter_sub. exact Hnd.
    + unfold ids. cbn [employees setEmployees setHoursGrid].
      rewrite ids_filter_sub. apply Forall_forall. intros x Hx.
      apply list_elem_of_In, filter_In in Hx as [Hx _].
      rewrite Forall_forall in H3. apply H3, list_elem_of_In, Hx.
  - unfold onEmployeesFetched.
    destruct (0 <? length data)%nat eqn:El;
      [| split; [exact H1 | split; [exact H2 | split; [exact H3 | exact H4]]]].
    apply Nat.ltb_lt in El. destruct (mapFetched_ids data) as (Hlen & Hnd & Hnum).
    apply syncGrid_well_formed.
    + cbn [employees setEmployees]. intros E. rewrite E in Hlen. cbn in Hlen. lia.
    + exact Hnd.
    + exact Hnum.
Qed.



Lemma fresh_numeric : Forall numeric (ids fresh).
Proof. repeat constructor. unfold numeric. cbn. discriminate. Qed.


Lemma maxId_nan (l : list string) :
  Exists (fun i => ~ numeric i) l -> maxId l = None.
Proof.
  induction 1 as [i l Hi | i l _ IH]; cbn [maxId fold_right]; fold (maxId l).
  - unfold numeric in Hi. destruct (parseInt i); [| reflexivity].
    exfalso. apply Hi. discriminate.
  - rewrite IH. destruct (parseInt i); reflexivity.
Qed.

(** X23. When some id is not a number, the new id is the text "NaN", and
    it is again after that: adding two employees gives two employees with
    the same id. *)
Theorem addEmployee_nan (st : State) :
  Exists (fun i => ~ numeric i) (ids st) ->
  nextId st = "NaN"%string
  /\ nextId (addEmployee st) = "NaN"%string
  /\ ~ NoDup (ids (addEmployee (addEmployee st))).
Proof.
  intros Hex.
  assert (forall s, Exists (fun i => ~ numeric i) (ids s) -> nextId s = "NaN"%string) as Hn.
  { intros s Hs. unfold nextId. fold (ids s). rewrite (maxId_nan _ Hs). reflexivity. }
  assert (Exists (fun i => ~ numeric i) (ids (addEmployee st))) as Hex'.
  { unfold addEmployee, ids. cbn [employees syncGrid setEmployees setHoursGrid].
    rewrite List.map_app. apply Exists_app. left. exact Hex. }
  split; [apply Hn, Hex | split; [apply Hn, Hex' |]].
  unfold addEmployee at 1. unfold ids.
  cbn [employees syncGrid setEmployees setHoursGrid].
  rewrite List.map_app. cbn [List.map id]. rewrite (Hn _ Hex').
  unfold addEmployee. cbn [employees syncGrid setEmployees setHoursGrid].
  rewrite List.map_app. cbn [List.map id]. rewrite (Hn _ Hex).
  rewrite <- app_assoc. intros Hnd. apply NoDup_app in Hnd as (_ & _ & Hnd).
  cbn [app] in Hnd. apply NoDup_cons in Hnd as [Hnd _].
  apply Hnd. left.
Qed.

Lemma addEmployee_nan_witness :
  nextId stored_x = "NaN"%string
  /\ nextId (addEmployee stored_x) = "NaN"%string
  /\ ~ NoDup (ids (addEmployee (addEmployee stored_x))).
Proof.
  refine (addEmployee_nan stored_x _).
  change (ids stored_x) with ["x"%string]. left.
  unfold numeric. intros H. exact (H eq_refl).
Defined.

(** X24. [removeEmployee] does nothing when one employee is left.  With
    distinct ids and more than one employee it removes the employee of
    that id and nobody else, drops the row of the grid, and keeps the hours
    of the others. *)
Theorem removeEmployee_removes (i : string) (st : State) :
  ((length (employees st) <= 1)%nat -> removeEmployee i st = st)
  /\ (NoDup (ids st) -> (1 < length (employees st))%nat -> In i (ids st) ->
      ids (removeEmployee i st) = List.filter (fun j => negb (j =? i)%string) (ids st)
      /\ length (employees st) = S (length (employees (removeEmployee i st)))
      /\ ~ In i (ids (removeEmployee i st))
      /\ hoursGrid (removeEmployee i st) !! i = None
      /\ (forall j d v, In j (ids st) -> j <> i -> gridEntry st j d = Some v ->
            gridEntry (removeEmployee i st) j d = Some v)).
Proof.
  unfold removeEmployee. split.
  - intros Hl. assert ((1 <? length (employees st))%nat = false) as ->
      by (apply Nat.ltb_ge, Hl).
    reflexivity.
  - intros Hnd Hl Hi. assert ((1 <? length (employees st))%nat = true) as ->
      by (apply Nat.ltb_lt, Hl).
    destruct (filter_NoDup_length i (ids st) Hnd) as (_ & _ & Hlen).
    set (s0 := setHoursGrid (delete i (hoursGrid st))
                 (setEmployees (List.filter (fun e => negb (id e =? i)%string)
                                            (employees st)) st)).
    assert (ids s0 = List.filter (fun j => negb (j =? i)%string) (ids st)) as Hids
      by apply ids_filter_sub.
    assert (~ In i (List.filter (fun j => negb (j =? i)%string) (ids st))) as Hni.
    { rewrite filter_In. intros [_ H]. rewrite String.eqb_refl in H. discriminate. }
    change (ids (syncGrid s0)) with (ids s0).
    change (employees (syncGrid s0)) with (employees s0).
    split; [exact Hids | split; [| split; [rewrite Hids; exact Hni | split]]].
    + specialize (Hlen Hi). rewrite <- Hids in Hlen. unfold ids in Hlen.
      rewrite !length_map in Hlen. exact Hlen.
    + rewrite syncGrid_lookup, Hids.
      destruct (in_dec string_dec i _) as [H | _]; [contradiction | reflexivity].
    + intros j d v Hj Hne Hv. rewrite gridEntry_syncGrid, Hids.
      destruct (in_dec string_dec j _) as [_ | Hn].
      * assert (gridEntry s0 j d = Some v) as ->; [| reflexivity].
        unfold gridEntry in *. subst s0. cbn [hoursGrid setEmployees setHoursGrid].
        rewrite lookup_delete_ne; [exact Hv |]. intros E. exact (Hne (eq_sym E)).
      * exfalso. apply Hn. apply filter_In. split; [exact Hj |].
        destruct (String.eqb_spec j i); [contradiction | reflexivity].
Qed.

Lemma removeEmployee_removes_witness :
  removeEmployee "1" fresh = fresh
  /\ ids (removeEmployee "1" pair) = ["2"%string]
  /\ hoursGrid (removeEmployee "1" pair) !! "1"%string = None.
Proof.
  split; [| split].
  - apply (proj1 (removeEmployee_removes "1" fresh)). cbn. lia.
  - apply (proj2 (removeEmployee_removes "1" pair)).
    + apply (bool_decide_eq_true_1 _). vm_compute. reflexivity.
    + vm_compute. lia.
    + vm_compute. left. reflexivity.
  - apply (proj2 (removeEmployee_removes "1" pair)).
    + apply (bool_decide_eq_true_1 _). vm_compute. reflexivity.
    + vm_compute. lia.
    + vm_compute. left. reflexivity.
Defined.

(** ** Editing an employee *)

Lemma weekTotal_syncGrid (st : State) (i : string) :
  In i (ids st) -> weekTotal (syncGrid st) i = weekTotal st i.
Proof.
  intros Hi. apply weekTotal_or0_ext; [reflexivity |].
  intros d Hd. rewrite gridEntry_syncGrid.
  change (weekStart (syncGrid st)) with (weekStart st) in Hd.
  destruct (in_dec string_dec i (ids st)) as [_ | Hn]; [| contradiction].
  destruct (gridEntry st i d); [reflexivity |].
  destruct (in_dec Z.eq_dec d (getWeekDates (weekStart st))) as [_ | Hn];
    [reflexivity | contradiction].
Qed.

Lemma points_by_employee (st : State) :
  List.map points (totalsWithPoints st)
  = List.map (fun e => (weekTotal st (id e)
                        * getMultiplier (str_or (type e) "waiter"))%js)
             (employees st).
Proof.
  unfold totalsWithPoints, employeeTotals. rewrite !List.map_map. reflexivity.
Qed.

(** The numbers of the rows are determined by the list of the points, the
    pool text and the restaurant share. *)
Lemma rows_by_points (st st' : State) :
  List.map points (totalsWithPoints st) = List.map points (totalsWithPoints st') ->
  totalTips st = totalTips st' ->
  restaurantShare st = restaurantShare st' ->
  List.map (fun r => (rawPropPoints r, prop r, weeklyRaw r, weeklyRounded r)) (finalRows st)
  = List.map (fun r => (rawPropPoints r, prop r, weeklyRaw r, weeklyRounded r))
             (finalRows st').
Proof.
  intros Hp Ht Hs.
  assert (totalEmployeePoints st = totalEmployeePoints st') as ET.
  { unfold totalEmployeePoints. rewrite <- !(sum_map points). rewrite Hp. reflexivity. }
  assert (totalTipsValue st = totalTipsValue st') as EP
    by (unfold totalTipsValue; rewrite Ht; reflexivity).
  set (dummy := pt_emp (row_emp (restaurantRow st))).
  assert (forall s, List.map (fun r => (rawPropPoints r, prop r, weeklyRaw r, weeklyRounded r))
                             (employeeRows s)
                    = List.map (fun q =>
                        let r := employeeRow s (mkPointed dummy (JS.Fin 0) q) in
                        (rawPropPoints r, prop r, weeklyRaw r, weeklyRounded r))
                        (List.map points (totalsWithPoints s))) as Hrows.
  { intros s. unfold employeeRows. rewrite !List.map_map. reflexivity. }
  assert (List.map weeklyRounded (employeeRows st)
          = List.map weeklyRounded (employeeRows st')) as ER.
  { assert (forall s, List.map weeklyRounded (employeeRows s)
                      = List.map (fun q => weeklyRounded
                                   (employeeRow s (mkPointed dummy (JS.Fin 0) q)))
                                 (List.map points (totalsWithPoints s))) as Hw
      by (intros s; unfold employeeRows; rewrite !List.map_map; reflexivity).
    rewrite !Hw, Hp. apply map_ext. intros q.
    unfold employeeRow. cbn [weeklyRounded points]. rewrite ET, EP, Hs. reflexivity. }
  assert (sumEmployeesRounded st = sumEmployeesRounded st') as ES.
  { unfold sumEmployeesRounded. rewrite <- !(sum_map weeklyRounded). rewrite ER.
    reflexivity. }
  unfold finalRows. rewrite !List.map_app, !Hrows, Hp. f_equal.
  - apply map_ext. intros q. unfold employeeRow.
    cbn [rawPropPoints prop weeklyRaw weeklyRounded points]. rewrite ET, EP, Hs.
    reflexivity.
  - cbn [List.map restaurantRow rawPropPoints prop weeklyRaw weeklyRounded].
    unfold restaurantAmount. rewrite ES, EP, Hs. reflexivity.
Qed.

(** X25. Editing the name of an employee changes no id and no number of
    the live table. *)
Theorem rename_keeps_amounts (st : State) (i value : string) :
  ids (updateEmployee i field_name value st) = ids st
  /\ List.map (fun r => (rawPropPoints r, prop r, weeklyRaw r, weeklyRounded r))
              (finalRows (updateEmployee i field_name value st))
     = List.map (fun r => (rawPropPoints r, prop r, weeklyRaw r, weeklyRounded r))
                (finalRows st).
Proof.
  split; [apply ids_updateEmployee |].
  apply rows_by_points; try reflexivity.
  rewrite !points_by_employee. unfold updateEmployee.
  set (emps' := List.map _ (employees st)).
  change (employees (syncGrid (setEmployees emps' st))) with emps'.
  subst emps'. rewrite List.map_map. apply map_ext_in. intros e He.
  assert (forall e', id e' = id e -> type e' = type e ->
            In (id e') (ids (setEmployees (List.map (fun e0 =>
               if (id e0 =? i)%string
               then mkEmployee (id e0) value (hours e0) (type e0)
               else e0) (employees st)) st)) ->
            (weekTotal (syncGrid (setEmployees (List.map (fun e0 =>
               if (id e0 =? i)%string
               then mkEmployee (id e0) value (hours e0) (type e0)
               else e0) (employees st)) st)) (id e')
             * getMultiplier (str_or (type e') "waiter"))%js
            = (weekTotal st (id e) * getMultiplier (str_or (type e) "waiter"))%js) as H.
  { intros e' Hid Hty Hin. rewrite weekTotal_syncGrid by exact Hin.
    rewrite Hid, Hty. reflexivity. }
  apply H.
  - destruct (id e =? i)%string; reflexivity.
  - destruct (id e =? i)%string; reflexivity.
  - unfold ids. cbn [employees setEmployees]. rewrite List.map_map.
    apply in_map_iff. exists e. split; [| exact He]. reflexivity.
Qed.

Lemma getMultiplier_range (t : string) :
  exists m, getMultiplier t = JS.Fin m /\ 1 # 2 <= m <= 1.
Proof.
  unfold getMultiplier.
  repeat match goal with
         | |- context [if ?b then _ else _] => destruct b
         end; eexists; (split; [reflexivity | lra]).
Qed.



(** ** Runs of the component *)

Lemma act_finite (st : State) (a : Action) :
  finite_state st -> plain_action a -> finite_state (act st a).
Proof.
  intros Hst Ha. destruct a as [ev | | i | data]; cbn [act].
  - apply handle_finite; assumption.
  - destruct Hst as (Hg & Hs & Ht). unfold addEmployee. apply syncGrid_finite.
    split; [| split; assumption].
    unfold grid_all. cbn [hoursGrid setHoursGrid setEmployees].
    apply map_Forall_insert_2; [apply map_Forall_empty | exact Hg].
  - destruct Hst as (Hg & Hs & Ht). unfold removeEmployee.
    destruct (1 <? length (employees st))%nat; [| split; [exact Hg | split; assumption]].
    apply syncGrid_finite. split; [| split; assumption].
    unfold grid_all. cbn [hoursGrid setHoursGrid setEmployees].
    apply map_Forall_delete, Hg.
  - unfold onEmployeesFetched. destruct (0 <? length data)%nat; [| exact Hst].
    apply syncGrid_finite. exact Hst.
Qed.



(** X28. An empty answer to the request for the employees changes
    nothing.  Otherwise the employees are replaced by one employee per
    element, in order, with the ids 1, 2, 3, ... (hence distinct), the name
    given or none, the role given or "waiter", and the effect gives each of
    them an entry for every day of the selected week. *)
Theorem fetched_employees (data : list Fetched) (st : State) :
  (data = [] -> onEmployeesFetched data st = st)
  /\ (data <> [] ->
      length (employees (onEmployeesFetched data st)) = length data
      /\ NoDup (ids (onEmployeesFetched data st))
      /\ (forall k d, data !! k = Some d ->
            exists e, employees (onEmployeesFetched data st) !! k = Some e
                      /\ parseInt (id e) = Some (Z.of_nat k + 1)%Z
                      /\ name e = str_or (f_name d) ""
                      /\ type e = Some (str_or (f_role d) "waiter"))
      /\ (forall i d, In i (ids (onEmployeesFetched data st)) ->
            In d (getWeekDates (weekStart st)) ->
            is_Some (gridEntry (onEmployeesFetched data st) i d))).
Proof.
  unfold onEmployeesFetched. split.
  - intros ->. reflexivity.
  - intros Hne. assert ((0 <? length data)%nat = true) as ->.
    { apply Nat.ltb_lt. destruct data; [contradiction | cbn; lia]. }
    destruct (mapFetched_ids data) as (Hlen & Hnd & _).
    change (employees (syncGrid (setEmployees (mapFetched data) st)))
      with (mapFetched data).
    split; [exact Hlen | split; [exact Hnd | split]].
    + intros k d Hk. rewrite mapFetched_lookup, Hk. cbn.
      eexists. split; [reflexivity |]. cbn [id name type].
      split; [apply parseInt_toString; lia | split; reflexivity].
    + intros i d Hi Hd.
      exact (syncGrid_synced (setEmployees (mapFetched data) st) i d Hi Hd).
Qed.

Lemma fetched_employees_witness :
  onEmployeesFetched [] fresh = fresh
  /\ length (employees (onEmployeesFetched
               [mkFetched (Some "Ann"%string) None; mkFetched None (Some "kitchen"%string)]
               fresh)) = 2%nat.
Proof.
  split.
  - apply (proj1 (fetched_employees [] fresh)). reflexivity.
  - apply (proj2 (fetched_employees
             [mkFetched (Some "Ann"%string) None; mkFetched None (Some "kitchen"%string)]
             fresh)).
    discriminate.
Defined.
